(** * FleetLink booking engine: a shallow embedding in Rocq

    This development embeds the parts of the FleetLink backend that decide
    booking admission and availability:
    - [src/utils/timeUtils.js] ([calculateEstimatedDuration],
      [calculateEndTime], [calculateEnhancedDuration]),
    - the [Booking] model ([findOverlappingBookings], [canBeCancelled], the
      schema validators and the two [pre('save')] hooks),
    - [BookingService] ([createBooking], [updateBookingStatus],
      [cancelBooking]) and [VehicleService.findAvailableVehicles].

    Modelling conventions.
    - A JS [Date] is its time value in milliseconds, a [Z].
    - JS numbers that hold durations in hours are exact rationals [Q]; the
      values the code produces (integers, halves, products by the factors
      of the enhanced estimate) are modelled by their exact value.
    - A JS number that can become [NaN] is a [JsNumber]; a [Date] built
      from a number beyond 8.64e15 ms is an Invalid Date, [None].
    - Strings are [String.string]; one [ascii] stands for one UTF-16 code
      unit below 256, so the whitespace recognised by [trim] and
      [parseInt] is the Latin-1 part of the JS whitespace set.
    - The MongoDB store is a record of two lists kept in insertion order and
      a counter for fresh ids; every [await] on the store is one step of an
      explicit state and error monad. *)

From Stdlib Require Import ZArith QArith Qabs Qminmax Qround String Ascii List Bool Lia Lqa Sorted.
Import ListNotations.
Open Scope string_scope.
Open Scope Z_scope.

(** ** JS strings: whitespace, [trim], [parseInt] *)

Module JsString.

(** StrWhiteSpaceChar restricted to code units below 256: TAB, LF, VT, FF,
    CR, SPACE and NO-BREAK SPACE. *)
Definition is_js_ws (c : ascii) : bool :=
  let n := nat_of_ascii c in
  (Nat.eqb n 9 || Nat.eqb n 10 || Nat.eqb n 11 || Nat.eqb n 12 ||
   Nat.eqb n 13 || Nat.eqb n 32 || Nat.eqb n 160)%bool.

Definition is_digit (c : ascii) : bool :=
  let n := nat_of_ascii c in (Nat.leb 48 n && Nat.leb n 57)%bool.

Definition digit_val (c : ascii) : Z := Z.of_nat (nat_of_ascii c) - 48.

Fixpoint trim_start (s : string) : string :=
  match s with
  | String c s' => if is_js_ws c then trim_start s' else s
  | EmptyString => EmptyString
  end.

Definition rev_string (s : string) : string :=
  string_of_list_ascii (rev (list_ascii_of_string s)).

(** [String.prototype.trim]. *)
Definition trim (s : string) : string :=
  rev_string (trim_start (rev_string (trim_start s))).

(** The digit run scanned by [parseInt] with radix 10: the longest prefix
    of decimal digits; [None] when it is empty (the NaN case). *)
Fixpoint digit_prefix (s : string) (acc : Z) (seen : bool) : option Z :=
  match s with
  | String c s' =>
      if is_digit c then digit_prefix s' (acc * 10 + digit_val c) true
      else if seen then Some acc else None
  | EmptyString => if seen then Some acc else None
  end.

(** [parseInt(s, 10)] (ECMA-262, 19.2.5): strip leading whitespace, read an
    optional sign, then the longest run of decimal digits. [None] is NaN. *)
Definition parseInt (s : string) : option Z :=
  match trim_start s with
  | String c r =>
      if Ascii.eqb c "-"%char then option_map Z.opp (digit_prefix r 0 false)
      else if Ascii.eqb c "+"%char then digit_prefix r 0 false
      else digit_prefix (String c r) 0 false
  | EmptyString => None
  end.

(** [/^\d{6}$/.test(s)]. *)
Definition is_six_digits (s : string) : bool :=
  (Nat.eqb (String.length s) 6 &&
   forallb is_digit (list_ascii_of_string s))%bool.

(** [s.padStart(6, '0')]. *)
Definition padStart6 (s : string) : string :=
  append (string_of_list_ascii (repeat "0"%char (6 - String.length s))) s.

End JsString.

Import JsString.

(** ** Error kinds

    [AppError]s carry the service's error kinds; everything else is a plain
    JS [Error] (thrown by the time utilities, by Mongoose validation or by
    the pre-save hooks), which the service's [catch] blocks wrap into an
    [AppError] with status 500 ([E_Server]). *)

Inductive Status := Pending | Confirmed | InProgress | Completed | Cancelled.

Definition status_eqb (a b : Status) : bool :=
  match a, b with
  | Pending, Pending | Confirmed, Confirmed | InProgress, InProgress
  | Completed, Completed | Cancelled, Cancelled => true
  | _, _ => false
  end.

Inductive HookErr := HVehicleNotFound | HVehicleInactive | HNotAvailable.

Inductive Err :=
  (* plain errors thrown by the time utilities *)
  | E_InvalidLocationCode
  | E_InvalidDuration
  (* plain errors of the persistence layer *)
  | E_Schema
  | E_Hook (h : HookErr)
  | E_NullDocument
  (* AppErrors of the services *)
  | E_VehicleNotFound
  | E_VehicleInactive
  | E_BookingNotFound
  | E_BookingConflict
  | E_InvalidStatusTransition (from to : Status)
  | E_NotCancellable
  | E_Server (inner : Err).

Definition is_app_error (e : Err) : bool :=
  match e with
  | E_InvalidLocationCode | E_InvalidDuration | E_Schema | E_Hook _
  | E_NullDocument => false
  | _ => true
  end.

(** ** [src/utils/timeUtils.js] *)

Module TimeUtils.

Local Open Scope Q_scope.

(** [calculateEstimatedDuration(fromPincode, toPincode)]. *)
Definition calculateEstimatedDuration (fromPincode toPincode : string)
  : Err + Q :=
  match parseInt fromPincode, parseInt toPincode with
  | Some from, Some to =>
      if ((from <? 100000)%Z || (from >? 999999)%Z ||
          (to <? 100000)%Z || (to >? 999999)%Z)%bool
      then inl E_InvalidLocationCode
      else inr (Qmax (inject_Z (Z.abs (to - from) mod 24)%Z) (1 # 2))
  | _, _ => inl E_InvalidLocationCode
  end.

(** [calculateEndTime(startTime, durationHours)] for a valid start instant:
    [new Date(start.getTime() + durationHours * 3600000)]; the [Date]
    constructor truncates the (positive) fractional milliseconds. *)
Definition calculateEndTime (startTime : Z) (durationHours : Q) : Err + Z :=
  if Qle_bool durationHours 0 then inl E_InvalidDuration
  else inr (startTime + Qfloor (durationHours * inject_Z 3600000))%Z.

(** A value read from an object property: a number, or a function or an
    object. *)
Inductive PropValue := PV_Number (q : Q) | PV_Object.

(** The properties every object literal inherits from [Object.prototype]:
    functions, and the [__proto__] accessor, which returns
    [Object.prototype] itself. *)
Definition object_prototype_members : list string :=
  ["constructor"; "__defineGetter__"; "__defineSetter__"; "hasOwnProperty";
   "__lookupGetter__"; "__lookupSetter__"; "isPrototypeOf";
   "propertyIsEnumerable"; "toString"; "valueOf"; "__proto__";
   "toLocaleString"].

(** [vehicleFactors[vehicleType]] on the [vehicleFactors] object literal:
    its own properties, then the inherited ones; [None] is [undefined]. *)
Definition vehicleFactors (vehicleType : string) : option PropValue :=
  if String.eqb vehicleType "motorcycle" then Some (PV_Number (8 # 10))
  else if String.eqb vehicleType "pickup" then Some (PV_Number (10 # 10))
  else if String.eqb vehicleType "van" then Some (PV_Number (11 # 10))
  else if String.eqb vehicleType "truck" then Some (PV_Number (13 # 10))
  else if String.eqb vehicleType "trailer" then Some (PV_Number (15 # 10))
  else if String.eqb vehicleType "other" then Some (PV_Number (10 # 10))
  else if existsb (String.eqb vehicleType) object_prototype_members then Some PV_Object
  else None.

(** A JS number: a finite value, or [NaN]. *)
Inductive JsNumber := JsNum (q : Q) | JsNaN.

(** [Number(v)]: a function or a plain object converts to [NaN]. *)
Definition to_number (v : PropValue) : JsNumber :=
  match v with PV_Number q => JsNum q | PV_Object => JsNaN end.

Definition js_mul (x y : JsNumber) : JsNumber :=
  match x, y with JsNum a, JsNum b => JsNum (a * b) | _, _ => JsNaN end.

Definition js_add (x y : JsNumber) : JsNumber :=
  match x, y with JsNum a, JsNum b => JsNum (a + b) | _, _ => JsNaN end.

Record EnhancedOptions := {
  opt_vehicleType : option string;
  opt_trafficFactor : option Q;
  opt_includeLoadingTime : bool
}.

(** JS truthiness of a number option: [undefined] and [0] are falsy. *)
Definition num_truthy (x : option Q) : option Q :=
  match x with
  | Some q => if Qeq_bool q 0 then None else Some q
  | None => None
  end.

(** [Math.round(x * 100) / 100]; [Math.round(y)] is [floor(y + 1/2)]. *)
Definition round2 (x : Q) : Q := inject_Z (Qfloor (x * 100 + (1 # 2))) / 100.

(** [Math.round(x * 100) / 100] on a JS number; [NaN] stays [NaN]. *)
Definition js_round2 (x : JsNumber) : JsNumber :=
  match x with JsNum q => JsNum (round2 q) | JsNaN => JsNaN end.

(** [calculateEnhancedDuration(fromPincode, toPincode, options)]. *)
Definition calculateEnhancedDuration (fromPincode toPincode : string)
    (options : EnhancedOptions) : Err + JsNumber :=
  match calculateEstimatedDuration fromPincode toPincode with
  | inl e => inl e
  | inr baseDuration =>
      let enhancedDuration := JsNum baseDuration in
      let vehicleFactor :=
        match match opt_vehicleType options with
              | Some t => vehicleFactors t
              | None => None
              end with
        | Some (PV_Number f) => if Qeq_bool f 0 then PV_Number 1 else PV_Number f
        | Some PV_Object => PV_Object
        | None => PV_Number 1
        end in
      let enhancedDuration := js_mul enhancedDuration (to_number vehicleFactor) in
      let trafficFactor :=
        match num_truthy (opt_trafficFactor options) with
        | Some t => t
        | None => 12 # 10
        end in
      let enhancedDuration :=
        if (Qle_bool 1 trafficFactor && Qle_bool trafficFactor 3)%bool
        then js_mul enhancedDuration (JsNum trafficFactor) else enhancedDuration in
      let enhancedDuration :=
        if opt_includeLoadingTime options
        then let loadingTime := Qmin (baseDuration * (1 # 10)) 2 in
             js_add enhancedDuration (JsNum (Qmax loadingTime (1 # 2)))
        else enhancedDuration in
      inr (js_round2 enhancedDuration)
  end.

End TimeUtils.

(** ** Data model: [src/models/Vehicle.js], [src/models/Booking.js] *)

Record Vehicle := {
  v_id : nat;
  capacityKg : Z;
  vehicleType : string;
  isActive : bool;
  createdAt : Z
}.

Record Booking := {
  b_id : nat;
  vehicleId : nat;
  customerId : string;
  fromPincode : string;
  toPincode : string;
  startTime : Z;
  endTime : Z;
  estimatedRideDurationHours : Q;
  status : Status;
  estimatedCost : option Q;
  actualStartTime : option Z;
  actualEndTime : option Z;
  notes : option string
}.

(** The two collections, each in insertion (natural) order, and the source
    of fresh booking ids. *)
Record DB := {
  vehicles : list Vehicle;
  bookings : list Booking;
  next_id : nat
}.

(** ** A state and error monad over the store *)

Definition M (A : Type) : Type := DB -> DB * (Err + A).

Definition ret {A} (a : A) : M A := fun db => (db, inr a).

Definition bind {A B} (m : M A) (k : A -> M B) : M B :=
  fun db => match m db with
            | (db', inl e) => (db', inl e)
            | (db', inr a) => k a db'
            end.

Definition throw {A} (e : Err) : M A := fun db => (db, inl e).

(** A synchronous computation that may throw. *)
Definition lift {A} (r : Err + A) : M A := fun db => (db, r).

Notation "x <- m ;; k" := (bind m (fun x => k))
  (at level 61, m at next level, right associativity).

(** [catch (error) { if (error instanceof AppError) throw error;
    throw new AppError(..., 500); }] *)
Definition catch_app {A} (m : M A) : M A :=
  fun db => match m db with
            | (db', inl e) => (db', inl (if is_app_error e then e else E_Server e))
            | r => r
            end.

(** [catch (error) { throw new AppError(..., 500); }] *)
Definition catch_all {A} (m : M A) : M A :=
  fun db => match m db with
            | (db', inl e) => (db', inl (E_Server e))
            | r => r
            end.

(** ** Store queries *)

Definition vehicle_lookup (db : DB) (id : nat) : option Vehicle :=
  find (fun v => Nat.eqb (v_id v) id) (vehicles db).

Definition booking_lookup (db : DB) (id : nat) : option Booking :=
  find (fun b => Nat.eqb (b_id b) id) (bookings db).

Definition Vehicle_findById (id : nat) : M (option Vehicle) :=
  fun db => (db, inr (vehicle_lookup db id)).

Definition Vehicle_find (q : Vehicle -> bool) : M (list Vehicle) :=
  fun db => (db, inr (filter q (vehicles db))).

Definition Booking_findById (id : nat) : M (option Booking) :=
  fun db => (db, inr (booking_lookup db id)).

(** The [status: { $nin: ['cancelled', 'completed'] }] filter. *)
Definition not_cancelled_or_completed (s : Status) : bool :=
  negb (existsb (status_eqb s) [Cancelled; Completed]).

(** The filter of [bookingSchema.statics.findOverlappingBookings]. *)
Definition overlap_query (vid : nat) (s e : Z) (excl : option nat)
    (b : Booking) : bool :=
  (Nat.eqb (vehicleId b) vid &&
   not_cancelled_or_completed (status b) &&
   (startTime b <? e) && (endTime b >? s) &&
   match excl with Some x => negb (Nat.eqb (b_id b) x) | None => true end)%bool.

Definition findOverlappingBookings (vid : nat) (s e : Z) (excl : option nat)
  : M (list Booking) :=
  fun db => (db, inr (filter (overlap_query vid s e excl) (bookings db))).

Definition with_id (id : nat) (b : Booking) : Booking :=
  {| b_id := id; vehicleId := vehicleId b; customerId := customerId b;
     fromPincode := fromPincode b; toPincode := toPincode b;
     startTime := startTime b; endTime := endTime b;
     estimatedRideDurationHours := estimatedRideDurationHours b;
     status := status b; estimatedCost := estimatedCost b;
     actualStartTime := actualStartTime b; actualEndTime := actualEndTime b;
     notes := notes b |}.

(** [insertOne]: the document is appended with a fresh [_id]. *)
Definition insert_booking (b : Booking) : M nat :=
  fun db => let id := next_id db in
            ({| vehicles := vehicles db;
                bookings := bookings db ++ [with_id id b];
                next_id := S id |}, inr id).

(** ** The [Booking] schema *)

Module BookingModel.

Local Open Scope Q_scope.

(** The field validators of [bookingSchema] on a new document at instant
    [now]: [required], [minlength]/[maxlength], [match], [min]/[max] and the
    custom validators of [startTime] and [endTime]. String fields hold their
    [trim]med value, as the schema's [trim] setters store them. *)
Definition validate (b : Booking) (now : Z) : bool :=
  (Nat.leb 1 (String.length (customerId b)) &&
   Nat.leb (String.length (customerId b)) 100 &&
   is_six_digits (fromPincode b) && is_six_digits (toPincode b) &&
   (startTime b >=? now - 5 * 60 * 1000)%Z &&
   (endTime b >? startTime b)%Z &&
   Qle_bool (1 # 10) (estimatedRideDurationHours b) &&
   Qle_bool (estimatedRideDurationHours b) 168 &&
   match estimatedCost b with Some c => Qle_bool 0 c | None => true end &&
   match notes b with
   | Some n => Nat.leb (String.length n) 1000
   | None => true
   end)%bool.

(** [bookingSchema.methods.canBeCancelled] at instant [now]. *)
Definition canBeCancelled (b : Booking) (now : Z) : bool :=
  (existsb (status_eqb (status b)) [Pending; Confirmed] &&
   (startTime b >? now + 60 * 60 * 1000)%Z)%bool.

(** The reads [save()] performs on a new document before its insert:
    Mongoose's built-in validation hook, then the two user [pre('save')]
    hooks. The first hook only pads the pincodes (a no-op on the six-digit
    strings validation admits) and fills a missing duration (never missing
    here). The second re-checks the vehicle and the overlap; the document's
    fresh [_id] is not in the store yet, so excluding it removes nothing. *)
Definition save_checks (b : Booking) (now : Z) : M unit :=
  if negb (validate b now) then throw E_Schema else
  if status_eqb (status b) Cancelled then ret tt else
  v <- Vehicle_findById (vehicleId b) ;;
  match v with
  | None => throw (E_Hook HVehicleNotFound)
  | Some v =>
      if negb (isActive v) then throw (E_Hook HVehicleInactive) else
      ov <- findOverlappingBookings (vehicleId b) (startTime b) (endTime b) None ;;
      match ov with
      | [] => ret tt
      | _ :: _ => throw (E_Hook HNotAvailable)
      end
  end.

End BookingModel.

(** ** [src/services/bookingService.js]: [BookingService] *)

Module BookingService.

Import TimeUtils BookingModel.

(** The fields of [bookingData] the service and the schema read. *)
Record BookingInput := {
  in_vehicleId : nat;
  in_customerId : string;
  in_fromPincode : string;
  in_toPincode : string;
  in_startTime : Z;
  in_endTime : option Z;
  in_estimatedRideDurationHours : option Q;
  in_status : option Status;
  in_estimatedCost : option Q;
  in_notes : option string
}.

(** [new Booking({ ...bookingData, endTime: finalEndTime,
    estimatedRideDurationHours: finalDuration, status: 'confirmed' })];
    the [trim] setters apply to the string fields. *)
Definition newBooking (bd : BookingInput) (finalDuration : Q) (finalEndTime : Z)
  : Booking :=
  {| b_id := 0;
     vehicleId := in_vehicleId bd;
     customerId := trim (in_customerId bd);
     fromPincode := trim (in_fromPincode bd);
     toPincode := trim (in_toPincode bd);
     startTime := in_startTime bd;
     endTime := finalEndTime;
     estimatedRideDurationHours := finalDuration;
     status := Confirmed;
     estimatedCost := in_estimatedCost bd;
     actualStartTime := None;
     actualEndTime := None;
     notes := option_map trim (in_notes bd) |}.

(** [const finalDuration = estimatedRideDurationHours ||
    calculateEstimatedDuration(fromPincode, toPincode);
    const finalEndTime = endTime || calculateEndTime(startTime, finalDuration);]
    A caller-supplied [endTime] is a date, hence truthy. *)
Definition resolve_window (bd : BookingInput) : Err + (Q * Z) :=
  match match num_truthy (in_estimatedRideDurationHours bd) with
        | Some d => inr d
        | None => calculateEstimatedDuration (in_fromPincode bd) (in_toPincode bd)
        end with
  | inl e => inl e
  | inr finalDuration =>
      match match in_endTime bd with
            | Some e => inr e
            | None => calculateEndTime (in_startTime bd) finalDuration
            end with
      | inl e => inl e
      | inr finalEndTime => inr (finalDuration, finalEndTime)
      end
  end.

(** [createBooking], up to and including the awaited overlap query: the
    vehicle checks, the resolution of duration and end time
    ([estimatedRideDurationHours || calculateEstimatedDuration(...)],
    [endTime || calculateEndTime(...)]) and the conflict check. *)
Definition create_check (bd : BookingInput) : M (Q * Z) :=
  vehicle <- Vehicle_findById (in_vehicleId bd) ;;
  match vehicle with
  | None => throw E_VehicleNotFound
  | Some vehicle =>
      if negb (isActive vehicle) then throw E_VehicleInactive else
      w <- lift (resolve_window bd) ;;
      let '(finalDuration, finalEndTime) := w in
      overlappingBookings <-
        findOverlappingBookings (in_vehicleId bd) (in_startTime bd) finalEndTime None ;;
      match overlappingBookings with
      | [] => ret (finalDuration, finalEndTime)
      | _ :: _ => throw E_BookingConflict
      end
  end.

(** [await booking.save()] followed by the populated [findById]; a missing
    document makes [createBooking] return [null] ([None]). *)
Definition create_save (b : Booking) (now : Z) : M (option Booking) :=
  _ <- save_checks b now ;;
  id <- insert_booking b ;;
  Booking_findById id.

(** [BookingService.createBooking(bookingData)] at instant [now]. *)
Definition createBooking (bd : BookingInput) (now : Z) : M (option Booking) :=
  catch_app (
    r <- create_check bd ;;
    create_save (newBooking bd (fst r) (snd r)) now).

(** The [validTransitions] table of [updateBookingStatus]. *)
Definition validTransitions (s : Status) : list Status :=
  match s with
  | Pending => [Confirmed; Cancelled]
  | Confirmed => [InProgress; Cancelled]
  | InProgress => [Completed; Cancelled]
  | Completed => []
  | Cancelled => []
  end.

(** The [updateFields] object. *)
Record UpdateFields := {
  u_status : Status;
  u_notes : option string;
  u_actualStartTime : option Z;
  u_actualEndTime : option Z
}.

Definition apply_update (u : UpdateFields) (b : Booking) : Booking :=
  {| b_id := b_id b; vehicleId := vehicleId b; customerId := customerId b;
     fromPincode := fromPincode b; toPincode := toPincode b;
     startTime := startTime b; endTime := endTime b;
     estimatedRideDurationHours := estimatedRideDurationHours b;
     status := u_status u;
     estimatedCost := estimatedCost b;
     actualStartTime :=
       match u_actualStartTime u with Some t => Some t | None => actualStartTime b end;
     actualEndTime :=
       match u_actualEndTime u with Some t => Some t | None => actualEndTime b end;
     notes := match u_notes u with Some n => Some (trim n) | None => notes b end |}.

(** [findByIdAndUpdate(id, updateFields, { new: true, runValidators: true })]:
    the update validators run on the updated paths only ([status] is in the
    enum by construction; [notes] has its [maxlength]; the [actualEndTime]
    validator reads [this.actualStartTime] of the query, which is undefined,
    and passes). *)
Definition findByIdAndUpdate (id : nat) (u : UpdateFields) : M (option Booking) :=
  fun db =>
    if match u_notes u with
       | Some n => negb (Nat.leb (String.length (trim n)) 1000)
       | None => false
       end
    then (db, inl E_Schema)
    else
      match booking_lookup db id with
      | None => (db, inr None)
      | Some b =>
          let b' := apply_update u b in
          ({| vehicles := vehicles db;
              bookings := map (fun x => if Nat.eqb (b_id x) id then apply_update u x else x)
                              (bookings db);
              next_id := next_id db |}, inr (Some b'))
      end.

Definition is_none {A} (o : option A) : bool :=
  match o with None => true | Some _ => false end.

(** [BookingService.updateBookingStatus(bookingId, { status, notes })] at
    instant [now]. *)
Definition updateBookingStatus (bookingId : nat) (st : Status)
    (notes_in : option string) (now : Z) : M Booking :=
  catch_app (
    currentBooking <- Booking_findById bookingId ;;
    match currentBooking with
    | None => throw E_BookingNotFound
    | Some cb =>
        if negb (existsb (status_eqb st) (validTransitions (status cb)))
        then throw (E_InvalidStatusTransition (status cb) st) else
        if (status_eqb st Cancelled && negb (canBeCancelled cb now))%bool
        then throw E_NotCancellable else
        let updateFields :=
          {| u_status := st;
             u_notes := match notes_in with
                        | Some n => if String.eqb n "" then None else Some n
                        | None => None
                        end;
             u_actualStartTime :=
               if (status_eqb st InProgress && is_none (actualStartTime cb))%bool
               then Some now else None;
             u_actualEndTime :=
               if (status_eqb st Completed && is_none (actualEndTime cb))%bool
               then Some now else None |} in
        updatedBooking <- findByIdAndUpdate bookingId updateFields ;;
        match updatedBooking with
        | None => throw E_NullDocument
        | Some ub => ret ub
        end
    end).

(** [BookingService.cancelBooking(bookingId, reason)] at instant [now]; the
    [new Date()] of its own [canBeCancelled] check and the one of the
    [updateBookingStatus] call it makes are the same instant here. *)
Definition cancelBooking (bookingId : nat) (reason : string) (now : Z) : M Booking :=
  catch_app (
    booking <- Booking_findById bookingId ;;
    match booking with
    | None => throw E_BookingNotFound
    | Some b =>
        if negb (canBeCancelled b now) then throw E_NotCancellable else
        updateBookingStatus bookingId Cancelled (Some reason) now
    end).

End BookingService.

(** ** [VehicleService.findAvailableVehicles] *)

Module VehicleService.

Import TimeUtils.

Record SearchParams := {
  capacityRequired : Z;
  sp_fromPincode : string;
  sp_toPincode : string;
  sp_startTime : Z;
  sp_vehicleType : option string;
  includeEnhancedDuration : bool
}.

(** One element of [availableVehicles]: the vehicle and the
    [enhancedDurationHours] field ([null] is [None]). *)
Record AvailableVehicle := {
  av_vehicle : Vehicle;
  av_enhancedDurationHours : option JsNumber
}.

(** The returned object; a field that is absent from it is [None]. *)
Record AvailabilityResult := {
  availableVehicles : list AvailableVehicle;
  res_estimatedRideDurationHours : Q;
  totalAvailable : option nat;
  totalSuitable : option nat
}.

(** The [Array.prototype.sort] comparator: capacity ascending, then
    [createdAt] descending. *)
Definition compare_available (a b : AvailableVehicle) : Z :=
  if negb (capacityKg (av_vehicle a) =? capacityKg (av_vehicle b))
  then capacityKg (av_vehicle a) - capacityKg (av_vehicle b)
  else createdAt (av_vehicle b) - createdAt (av_vehicle a).

(** [Array.prototype.sort] is stable; a stable insertion sort by the same
    comparator produces the same array. *)
Fixpoint insert_sorted (x : AvailableVehicle) (l : list AvailableVehicle)
  : list AvailableVehicle :=
  match l with
  | [] => [x]
  | y :: ys => if compare_available x y <? 0 then x :: y :: ys
               else y :: insert_sorted x ys
  end.

Definition sort_available (l : list AvailableVehicle) : list AvailableVehicle :=
  fold_left (fun acc x => insert_sorted x acc) l [].

Fixpoint mapM {A B} (f : A -> M B) (l : list A) : M (list B) :=
  match l with
  | [] => ret []
  | x :: xs => y <- f x ;; ys <- mapM f xs ;; ret (y :: ys)
  end.

Fixpoint filter_some {A} (l : list (option A)) : list A :=
  match l with
  | [] => []
  | Some x :: xs => x :: filter_some xs
  | None :: xs => filter_some xs
  end.

(** The suitable-vehicle query [{ capacityKg: { $gte: capacityRequired },
    isActive: true [, vehicleType] }]; the type filter is added only for a
    truthy (non-empty) [vehicleType]. *)
Definition vehicleQuery (p : SearchParams) (v : Vehicle) : bool :=
  ((capacityKg v >=? capacityRequired p) && isActive v &&
   match sp_vehicleType p with
   | Some t => if String.eqb t "" then true else String.eqb (vehicleType v) t
   | None => true
   end)%bool.

(** The per-vehicle availability check of the [Promise.all] scatter. *)
Definition check_vehicle (p : SearchParams) (endTime_ : Z) (vehicle : Vehicle)
  : M (option AvailableVehicle) :=
  overlappingBookings <-
    findOverlappingBookings (v_id vehicle) (sp_startTime p) endTime_ None ;;
  match overlappingBookings with
  | [] =>
      enhancedDuration <-
        (if includeEnhancedDuration p
         then d <- lift (calculateEnhancedDuration (sp_fromPincode p) (sp_toPincode p)
                           {| opt_vehicleType := Some (vehicleType vehicle);
                              opt_trafficFactor := Some (12 # 10)%Q;
                              opt_includeLoadingTime := true |}) ;;
              ret (Some d)
         else ret None) ;;
      ret (Some {| av_vehicle := vehicle;
                   av_enhancedDurationHours := enhancedDuration |})
  | _ :: _ => ret None
  end.

(** [VehicleService.findAvailableVehicles(searchParams)]. *)
Definition findAvailableVehicles (p : SearchParams) : M AvailabilityResult :=
  catch_all (
    estimatedRideDurationHours <-
      lift (calculateEstimatedDuration (sp_fromPincode p) (sp_toPincode p)) ;;
    endTime_ <- lift (calculateEndTime (sp_startTime p) estimatedRideDurationHours) ;;
    suitableVehicles <- Vehicle_find (vehicleQuery p) ;;
    match suitableVehicles with
    | [] =>
        ret {| availableVehicles := [];
               res_estimatedRideDurationHours := estimatedRideDurationHours;
               totalAvailable := None;
               totalSuitable := None |}
    | _ :: _ =>
        availabilityResults <- mapM (check_vehicle p endTime_) suitableVehicles ;;
        let available := sort_available (filter_some availabilityResults) in
        ret {| availableVehicles := available;
               res_estimatedRideDurationHours := estimatedRideDurationHours;
               totalAvailable := Some (length available);
               totalSuitable := Some (length suitableVehicles) |}
    end).

End VehicleService.

(** ** Concurrent [createBooking] calls

    Node.js runs the handlers of concurrent requests on one event loop and
    switches between them only at an [await]. A call of [createBooking] is
    split here into three blocks, each of which runs without interruption:
    the service's reads up to the overlap query ([create_check]), the reads
    of [save()] ([save_checks]) and the insert with the populated re-read.
    Each block covers one or more [await]s, so every interleaving of these
    blocks is an interleaving the event loop can produce. *)

Module Concurrent.

Import BookingModel BookingService.

Inductive Thread :=
  | TStart (bd : BookingInput)
  | TSaving (b : Booking)
  | TInserting (b : Booking)
  | TDone (r : Err + option Booking).

(** One block of the thread's [createBooking]; errors are turned into the
    call's outcome by [createBooking]'s [catch]. *)
Definition step_thread (now : Z) (t : Thread) (db : DB) : DB * Thread :=
  let finish {A} (r : DB * (Err + A)) (k : A -> Thread) :=
    match r with
    | (db', inl e) => (db', TDone (inl (if is_app_error e then e else E_Server e)))
    | (db', inr a) => (db', k a)
    end in
  match t with
  | TStart bd =>
      finish (create_check bd db)
             (fun r => TSaving (newBooking bd (fst r) (snd r)))
  | TSaving b => finish (save_checks b now db) (fun _ => TInserting b)
  | TInserting b =>
      finish ((id <- insert_booking b ;; Booking_findById id) db)
             (fun r => TDone (inr r))
  | TDone r => (db, TDone r)
  end.

Fixpoint set_nth {A} (n : nat) (x : A) (l : list A) : list A :=
  match n, l with
  | O, _ :: ys => x :: ys
  | S n', y :: ys => y :: set_nth n' x ys
  | _, [] => []
  end.

(** Run a schedule: each entry names the thread whose next block runs. *)
Fixpoint run (now : Z) (sched : list nat) (ts : list Thread) (db : DB)
  : DB * list Thread :=
  match sched with
  | [] => (db, ts)
  | i :: rest =>
      match nth_error ts i with
      | Some t => let (db', t') := step_thread now t db in
                  run now rest (set_nth i t' ts) db'
      | None => run now rest ts db
      end
  end.

Definition succeeded (t : Thread) : bool :=
  match t with TDone (inr _) => true | _ => false end.

End Concurrent.

(** ** Notions the specification is stated in *)

Module SpecNotions.

Import TimeUtils.

Fixpoint all_digits (s : string) : bool :=
  match s with
  | String c r => (is_digit c && all_digits r)%bool
  | EmptyString => true
  end.

(** The decimal value of a string of digits. *)
Fixpoint digits_value_from (s : string) (acc : Z) : Z :=
  match s with
  | String c r => digits_value_from r (acc * 10 + digit_val c)
  | EmptyString => acc
  end.

Definition code_value (s : string) : Z := digits_value_from s 0.

(** A valid location code: six decimal digits, value in [100000, 999999]. *)
Definition valid_code (s : string) : Prop :=
  is_six_digits s = true /\ 100000 <= code_value s <= 999999.

(** The codes [calculateEstimatedDuration] refuses: [parseInt] gives NaN, or
    a value outside [100000, 999999]. *)
Definition rejected_by_parse (s : string) : Prop :=
  match parseInt s with
  | None => True
  | Some v => v < 100000 \/ 999999 < v
  end.

Definition starts_with_non_digit (t : string) : Prop :=
  match t with
  | EmptyString => True
  | String c _ => is_digit c = false
  end.




(** Bookings that take part in the conflict check. *)
Definition live (b : Booking) : Prop :=
  status b <> Cancelled /\ status b <> Completed.

Definition overlaps (s1 e1 s2 e2 : Z) : Prop := s1 < e2 /\ e1 > s2.

Definition compatible (b1 b2 : Booking) : Prop :=
  vehicleId b1 <> vehicleId b2 \/ ~ live b1 \/ ~ live b2 \/
  ~ overlaps (startTime b1) (endTime b1) (startTime b2) (endTime b2).

(** No two live bookings of one vehicle overlap. *)
Definition no_double_booking (l : list Booking) : Prop :=
  ForallOrdPairs compatible l.

(** Every booking id is below the id the store hands out next. *)
Definition ids_below (db : DB) : Prop :=
  Forall (fun b => (b_id b < next_id db)%nat) (bookings db).

(** The dispatch order of available vehicles: capacity ascending, the most
    recently created first among equal capacities. *)
Definition dispatch_le (a b : VehicleService.AvailableVehicle) : Prop :=
  let va := VehicleService.av_vehicle a in
  let vb := VehicleService.av_vehicle b in
  capacityKg va < capacityKg vb \/
  (capacityKg va = capacityKg vb /\ createdAt va >= createdAt vb).

(** The fields a status update must leave alone. *)
Definition frame_preserved (before after : Booking) : Prop :=
  vehicleId after = vehicleId before /\ customerId after = customerId before /\
  fromPincode after = fromPincode before /\ toPincode after = toPincode before /\
  startTime after = startTime before /\ endTime after = endTime before /\
  estimatedRideDurationHours after = estimatedRideDurationHours before /\
  estimatedCost after = estimatedCost before.

End SpecNotions.

(** ** Concrete stores and requests used by the examples below *)

Module Fixtures.

Import TimeUtils BookingService VehicleService.


Definition HOUR : Z := 3600000.

Definition truck1 : Vehicle :=
  {| v_id := 1; capacityKg := 5000; vehicleType := "truck"; isActive := true;
     createdAt := 0 |}.

Definition mk_booking (id : nat) (st : Status) (s e : Z) : Booking :=
  {| b_id := id; vehicleId := 1; customerId := "cust1";
     fromPincode := "110001"; toPincode := "110025";
     startTime := s; endTime := e;
     estimatedRideDurationHours := (inject_Z (e - s) / inject_Z HOUR)%Q;
     status := st; estimatedCost := None;
     actualStartTime := None; actualEndTime := None; notes := None |}.

Definition store_with (bs : list Booking) : DB :=
  {| vehicles := [truck1]; bookings := bs; next_id := 10 |}.

(** A request for vehicle 1 from [s] to [s + 2h] with the duration given. *)
Definition request (s : Z) : BookingInput :=
  {| in_vehicleId := 1; in_customerId := "cust1";
     in_fromPincode := "110001"; in_toPincode := "110025";
     in_startTime := s; in_endTime := Some (s + 2 * HOUR);
     in_estimatedRideDurationHours := Some 2%Q; in_status := None;
     in_estimatedCost := None; in_notes := None |}.

(** A request for vehicle 1 starting at [s], with no end time and the
    duration field [dur]. *)
Definition request_estimated (s : Z) (dur : option Q) : BookingInput :=
  {| in_vehicleId := 1; in_customerId := "cust1";
     in_fromPincode := "110001"; in_toPincode := "110025";
     in_startTime := s; in_endTime := None;
     in_estimatedRideDurationHours := dur; in_status := None;
     in_estimatedCost := None; in_notes := None |}.

(** A search for 9000 kg from 110001 to 110025 starting at [2h]. *)
Definition search_heavy : SearchParams :=
  {| capacityRequired := 9000; sp_fromPincode := "110001";
     sp_toPincode := "110025"; sp_startTime := 2 * HOUR;
     sp_vehicleType := None; includeEnhancedDuration := false |}.

End Fixtures.

(** ** The rest of [src/utils/timeUtils.js] *)

Module TimeUtilsRest.

Import JsString TimeUtils.

(** The two messages [timeRangesOverlap] wraps and rethrows. *)
Inductive OverlapErr := OE_InvalidDate | OE_EndNotAfterStart.

(** [timeRangesOverlap(start1, end1, start2, end2)]; an argument that makes
    an invalid [Date] is [None]. *)
Definition timeRangesOverlap (start1 end1 start2 end2 : option Z) : OverlapErr + bool :=
  match start1, end1, start2, end2 with
  | Some s1, Some e1, Some s2, Some e2 =>
      if ((e1 <=? s1) || (e2 <=? s2))%bool then inl OE_EndNotAfterStart
      else inr ((s1 <? e2) && (e1 >? s2))%bool
  | _, _, _, _ => inl OE_InvalidDate
  end.

Record FutureDateOptions := {
  minMinutesFromNow : option Q;
  maxDaysFromNow : option Q
}.

(** The [{ isValid, message }] results of [validateFutureDate]; the numbers
    are the ones interpolated into the message. *)
Inductive FutureDateResult :=
  | FD_Valid
  | FD_InvalidFormat
  | FD_TooSoon (minMinutes : Q)
  | FD_TooLate (maxDays : Q).

(** [new Date(x)] keeps the integer part of [x] (ToIntegerOrInfinity). *)
Definition js_trunc (q : Q) : Z :=
  if Qle_bool 0 q then Qfloor q else - Qfloor (- q).

(** [options.minMinutesFromNow || 5] and [options.maxDaysFromNow || 365]. *)
Definition effective_minMinutes (o : FutureDateOptions) : Q :=
  match num_truthy (minMinutesFromNow o) with Some m => m | None => 5 end.

Definition effective_maxDays (o : FutureDateOptions) : Q :=
  match num_truthy (maxDaysFromNow o) with Some d => d | None => 365 end.

(** [new Date(x)] for a number [x] (TimeClip): an Invalid Date ([None])
    when [|x|] exceeds 8.64e15 ms, otherwise the integer part of [x]. *)
Definition time_clip (x : Q) : option Z :=
  if Qle_bool (Qabs x) (inject_Z 8640000000000000) then Some (js_trunc x) else None.

(** [a < b] and [a > b] on dates compare their time values; an Invalid
    Date has the time value [NaN], with which every comparison is false. *)
Definition date_lt (a : Z) (b : option Z) : bool :=
  match b with Some b => a <? b | None => false end.

Definition date_gt (a : Z) (b : option Z) : bool :=
  match b with Some b => a >? b | None => false end.

(** [validateFutureDate(date, options)] at instant [now]; an invalid
    [date] is [None]. *)
Definition validateFutureDate (date : option Z) (options : FutureDateOptions) (now : Z)
  : FutureDateResult :=
  match date with
  | None => FD_InvalidFormat
  | Some targetDate =>
      let minMinutes := effective_minMinutes options in
      let maxDays := effective_maxDays options in
      let minTime := time_clip (inject_Z now + minMinutes * 60 * 1000) in
      let maxTime := time_clip (inject_Z now + maxDays * 24 * 60 * 60 * 1000) in
      if date_lt targetDate minTime then FD_TooSoon minMinutes
      else if date_gt targetDate maxTime then FD_TooLate maxDays
      else FD_Valid
  end.

(** The decimal digits of [n >= 0], least significant first. *)
Fixpoint digits_rev (fuel : nat) (n : Z) : list ascii :=
  match fuel with
  | O => []
  | S f =>
      let c := ascii_of_nat (48 + Z.to_nat (n mod 10)) in
      if n <? 10 then [c] else c :: digits_rev f (n / 10)
  end.

(** [String(n)] for an integer [n]. *)
Definition Z_to_dec (n : Z) : string :=
  let d := string_of_list_ascii
             (rev (digits_rev (S (Z.to_nat (Z.log2 (Z.abs n)))) (Z.abs n))) in
  if n <? 0 then String "-" d else d.

(** The [minutes] constant of [formatDuration]:
    [Math.round((hours - Math.floor(hours)) * 60)], with [Math.round(y)]
    the integer [floor(y + 1/2)]. *)
Definition duration_minutes (hours : Q) : Z :=
  Qfloor ((hours - inject_Z (Qfloor hours)) * 60 + (1 # 2)).

(** [formatDuration(hours)] for a number [hours]. *)
Definition formatDuration (hours : Q) : string :=
  if negb (Qle_bool 0 hours) then "Invalid duration" else
  let wholeHours := Qfloor hours in
  let minutes := duration_minutes hours in
  let plural := if Z.eqb wholeHours 1 then "" else "s" in
  if Z.eqb wholeHours 0 then Z_to_dec minutes ++ " minutes"
  else if Z.eqb minutes 0 then Z_to_dec wholeHours ++ " hour" ++ plural
  else Z_to_dec wholeHours ++ " hour" ++ plural ++ " " ++ Z_to_dec minutes ++ " minutes".

End TimeUtilsRest.

(** ** [src/utils/validationUtils.js] *)

Module ValidationUtils.

Import JsString.

(** [String.prototype.toLowerCase] on code units below 256: [A-Z] and the
    Latin-1 capitals [U+00C0-U+00DE] except [U+00D7] move up by 32. *)
Definition to_lower_char (c : ascii) : ascii :=
  let n := nat_of_ascii c in
  if ((Nat.leb 65 n && Nat.leb n 90) ||
      (Nat.leb 192 n && Nat.leb n 222 && negb (Nat.eqb n 215)))%bool
  then ascii_of_nat (n + 32) else c.

Fixpoint toLowerCase (s : string) : string :=
  match s with
  | EmptyString => EmptyString
  | String c r => String (to_lower_char c) (toLowerCase r)
  end.

(** The results of [validatePincode]; [PR_Valid] carries
    [normalizedPincode]. *)
Inductive PincodeResult :=
  | PR_Required
  | PR_NotSixDigits
  | PR_OutOfRange
  | PR_Valid (normalizedPincode : string).

(** [validatePincode(pincode)] for a string [pincode]. The range test
    compares [NaN] as false, so a [NaN] would pass it. *)
Definition validatePincode (pincode : string) : PincodeResult :=
  let pincodeStr := trim pincode in
  if String.eqb pincodeStr "" then PR_Required
  else if negb (is_six_digits pincodeStr) then PR_NotSixDigits
  else match parseInt pincodeStr with
       | Some pincodeNum =>
           if ((pincodeNum <? 100000) || (pincodeNum >? 999999))%bool
           then PR_OutOfRange else PR_Valid pincodeStr
       | None => PR_Valid pincodeStr
       end.

(** The characters of the class removed by [validateSearchQuery]: less-than,
    greater-than, double quote, apostrophe and ampersand. *)
Definition is_unsafe_char (c : ascii) : bool :=
  let n := nat_of_ascii c in
  (Nat.eqb n 60 || Nat.eqb n 62 || Nat.eqb n 34 || Nat.eqb n 39 || Nat.eqb n 38)%bool.

(** [s.replace(re, '')] with that character class as the global [re]. *)
Fixpoint strip_unsafe (s : string) : string :=
  match s with
  | EmptyString => EmptyString
  | String c r => if is_unsafe_char c then strip_unsafe r else String c (strip_unsafe r)
  end.

Inductive SearchQueryResult :=
  | SQ_Required
  | SQ_Empty
  | SQ_TooLong
  | SQ_Valid (sanitizedQuery : string).

(** [validateSearchQuery(query)] for a string or [undefined] ([None]). *)
Definition validateSearchQuery (query : option string) : SearchQueryResult :=
  match query with
  | None => SQ_Required
  | Some q =>
      if String.eqb q "" then SQ_Required else
      let trimmedQuery := trim q in
      if Nat.ltb (String.length trimmedQuery) 1 then SQ_Empty
      else if Nat.ltb 100 (String.length trimmedQuery) then SQ_TooLong
      else SQ_Valid (strip_unsafe trimmedQuery)
  end.

Definition validTypes : list string :=
  ["truck"; "van"; "pickup"; "trailer"; "motorcycle"; "other"].

(** The results of [validateVehicleType]; [VT_Default] is the
    "using default" answer. *)
Inductive VehicleTypeResult :=
  | VT_Default (normalizedVehicleType : string)
  | VT_Invalid
  | VT_Valid (normalizedVehicleType : string).

Definition validateVehicleType (vehicleType : option string) : VehicleTypeResult :=
  match vehicleType with
  | None => VT_Default "truck"
  | Some t =>
      if String.eqb t "" then VT_Default "truck" else
      let lowerType := trim (toLowerCase t) in
      if existsb (String.eqb lowerType) validTypes then VT_Valid lowerType
      else VT_Invalid
  end.

Definition validStatuses : list string :=
  ["pending"; "confirmed"; "in_progress"; "completed"; "cancelled"].

(** The stored name of a status. *)
Definition status_name (s : Status) : string :=
  match s with
  | Pending => "pending"
  | Confirmed => "confirmed"
  | InProgress => "in_progress"
  | Completed => "completed"
  | Cancelled => "cancelled"
  end.

Inductive StatusResult :=
  | BS_Required
  | BS_Invalid
  | BS_Valid (normalizedStatus : string).

Definition validateBookingStatus (status : option string) : StatusResult :=
  match status with
  | None => BS_Required
  | Some s =>
      if String.eqb s "" then BS_Required else
      let lowerStatus := trim (toLowerCase s) in
      if existsb (String.eqb lowerStatus) validStatuses then BS_Valid lowerStatus
      else BS_Invalid
  end.

(** [Number.isInteger] on a finite number. *)
Definition is_integer (q : Q) : bool := Qeq_bool (inject_Z (Qfloor q)) q.

Inductive PaginationResult :=
  | PG_InvalidPage
  | PG_InvalidLimit
  | PG_Valid (normalizedPage normalizedLimit skip : Z).

(** [validatePagination({ page, limit })]. Each argument is [None] when
    [undefined] (the default applies), and otherwise its [Number(...)]
    value, [None] for [NaN]. *)
Definition validatePagination (page limit : option (option Q)) : PaginationResult :=
  let pageNum := match page with None => Some 1%Q | Some p => p end in
  let limitNum := match limit with None => Some 10%Q | Some l => l end in
  match pageNum with
  | None => PG_InvalidPage
  | Some p =>
      if (negb (Qle_bool 1 p) || negb (is_integer p))%bool then PG_InvalidPage else
      match limitNum with
      | None => PG_InvalidLimit
      | Some l =>
          if (negb (Qle_bool 1 l) || negb (Qle_bool l 100) || negb (is_integer l))%bool
          then PG_InvalidLimit
          else PG_Valid (Qfloor p) (Qfloor l) ((Qfloor p - 1) * Qfloor l)
      end
  end.

End ValidationUtils.

(** ** More of the [Vehicle] and [Booking] models *)

Module ModelRest.

Import JsString TimeUtils.

(** [s.replace(/\s+/g, ' ')]: every maximal run of whitespace becomes one
    space; [in_ws] tells whether the previous character was whitespace. *)
Fixpoint collapse_ws (in_ws : bool) (s : string) : string :=
  match s with
  | EmptyString => EmptyString
  | String c r =>
      if is_js_ws c then (if in_ws then collapse_ws true r else String " " (collapse_ws true r))
      else String c (collapse_ws false r)
  end.

(** The name normalisation of [vehicleSchema.pre('save')]:
    [this.name.trim().replace(/\s+/g, ' ')]. *)
Definition normalizeName (name : string) : string := collapse_ws false (trim name).

(** [bookingSchema.methods.overlapsWithTimeRange(startTime, endTime)]. *)
Definition overlapsWithTimeRange (b : Booking) (s e : Z) : bool :=
  (negb (status_eqb (status b) Cancelled) && (startTime b <? e) && (endTime b >? s))%bool.

(** The [actualDurationHours] virtual of [bookingSchema]. *)
Definition actualDurationHours (b : Booking) : option Q :=
  match actualStartTime b, actualEndTime b with
  | Some s, Some e => Some (round2 (inject_Z (e - s) / inject_Z (1000 * 60 * 60)))
  | _, _ => None
  end.

End ModelRest.

(** ** The rest of [BookingService] and [VehicleService] *)

Module ServiceRest.

Import JsString BookingModel BookingService.

(** [BookingService.checkBookingConflicts(vehicleId, startTime, endTime,
    excludeBookingId)]. *)
Definition checkBookingConflicts (vid : nat) (s e : Z) (excl : option nat)
  : M (list Booking) :=
  catch_all (findOverlappingBookings vid s e excl).

(** The [pagination] object of [getBookings]. *)
Record PaginationInfo := {
  currentPage : Z;
  totalPages : Z;
  totalItems : Z;
  itemsPerPage : Z;
  hasNextPage : bool;
  hasPreviousPage : bool
}.

Definition pagination_info (page limit total : Z) : PaginationInfo :=
  let tp := Qceiling (inject_Z total / inject_Z limit) in
  {| currentPage := page; totalPages := tp; totalItems := total;
     itemsPerPage := limit; hasNextPage := page <? tp; hasPreviousPage := page >? 1 |}.

(** [.skip(skip).limit(limit)] on the sorted matches, for [limit >= 1]. *)
Definition page_slice {A} (page limit : Z) (l : list A) : list A :=
  firstn (Z.to_nat limit) (skipn (Z.to_nat ((page - 1) * limit)) l).

(** The result of [getBookings] for the sorted list of matching bookings:
    the page and its [pagination] object. *)
Definition paginate {A} (page limit : Z) (matches : list A) : list A * PaginationInfo :=
  (page_slice page limit matches,
   pagination_info page limit (Z.of_nat (length matches))).

(** The errors [deleteBooking] throws. *)
Inductive DeleteErr := D_NotFound | D_NotDeletable | D_DeleteFailed.

Record DeleteResult := {
  deleted_id : nat;
  deleted_status : Status;
  deletedAt : Z
}.

Fixpoint remove_first_booking (id : nat) (l : list Booking) : list Booking :=
  match l with
  | [] => []
  | b :: bs => if Nat.eqb (b_id b) id then bs else b :: remove_first_booking id bs
  end.

(** [Booking.findByIdAndDelete(id)]: removes the document and returns it. *)
Definition findByIdAndDelete (id : nat) (db : DB) : DB * option Booking :=
  match booking_lookup db id with
  | None => (db, None)
  | Some b => ({| vehicles := vehicles db;
                  bookings := remove_first_booking id (bookings db);
                  next_id := next_id db |}, Some b)
  end.

(** [deleteBooking] has two [await]s; another request can run between
    them. Its first block reads the booking with [findById] and checks it
    ([None]: the call goes on); its second block runs [findByIdAndDelete]
    and builds the result at instant [now]. *)
Definition delete_check (bookingId : nat) (db : DB) : option DeleteErr :=
  match booking_lookup db bookingId with
  | None => Some D_NotFound
  | Some booking =>
      if negb (existsb (status_eqb (status booking)) [Completed; Cancelled])
      then Some D_NotDeletable else None
  end.

Definition delete_finish (bookingId : nat) (now : Z) (db : DB)
  : DB * (DeleteErr + DeleteResult) :=
  match findByIdAndDelete bookingId db with
  | (db', None) => (db', inl D_DeleteFailed)
  | (db', Some d) =>
      (db', inr {| deleted_id := b_id d; deleted_status := status d; deletedAt := now |})
  end.

(** [BookingService.deleteBooking(bookingId)] at instant [now], with no
    other request between its two blocks. *)
Definition deleteBooking (bookingId : nat) (now : Z) (db : DB)
  : DB * (DeleteErr + DeleteResult) :=
  match delete_check bookingId db with
  | Some e => (db, inl e)
  | None => delete_finish bookingId now db
  end.

(** The query of [getUpcomingBookings]. *)
Definition upcoming_query (now : Z) (b : Booking) : bool :=
  ((now <=? startTime b) && (startTime b <=? now + 24 * 60 * 60 * 1000) &&
   existsb (status_eqb (status b)) [Confirmed; Pending])%bool.

Fixpoint insert_by_start (x : Booking) (l : list Booking) : list Booking :=
  match l with
  | [] => [x]
  | y :: ys => if startTime x <? startTime y then x :: y :: ys
               else y :: insert_by_start x ys
  end.

(** [.sort({ startTime: 1 })]; documents with equal [startTime] keep their
    natural order here, which is one of the orders MongoDB may return. *)
Definition sort_by_start (l : list Booking) : list Booking :=
  fold_left (fun acc x => insert_by_start x acc) l [].

(** [.limit(n)]: [0] means no limit. *)
Definition mongo_limit {A} (n : nat) (l : list A) : list A :=
  match n with O => l | _ => firstn n l end.

(** [BookingService.getUpcomingBookings({ limit })] at instant [now]. *)
Definition getUpcomingBookings (limit : nat) (now : Z) : M (list Booking) :=
  catch_all (fun db =>
    (db, inr (mongo_limit limit (sort_by_start (filter (upcoming_query now) (bookings db)))))).

(** The [getUpcomingBookings] controller: [limit] is the query string
    ([None] when absent, defaulting to [50]); [inl tt] is the 400 answer. *)
Definition getUpcomingBookings_ctrl (limit : option string) (now : Z)
  : M (unit + list Booking) :=
  let limitNum := parseInt (match limit with Some l => l | None => "50" end) in
  match limitNum with
  | None => ret (inl tt)
  | Some n =>
      if ((n <? 1) || (n >? 100))%bool then ret (inl tt)
      else r <- getUpcomingBookings (Z.to_nat n) now ;; ret (inr r)
  end.

(** The errors [VehicleService.deleteVehicle] throws. *)
Inductive VehicleDeleteErr := VD_NotFound | VD_ActiveBookings.

Fixpoint update_first_vehicle (vid : nat) (f : Vehicle -> Vehicle) (l : list Vehicle)
  : list Vehicle :=
  match l with
  | [] => []
  | v :: vs => if Nat.eqb (v_id v) vid then f v :: vs else v :: update_first_vehicle vid f vs
  end.

Definition deactivate (v : Vehicle) : Vehicle :=
  {| v_id := v_id v; capacityKg := capacityKg v; vehicleType := vehicleType v;
     isActive := false; createdAt := createdAt v |}.

(** The [countDocuments] query of [deleteVehicle]. *)
Definition active_booking_query (vid : nat) (now : Z) (b : Booking) : bool :=
  (Nat.eqb (vehicleId b) vid &&
   existsb (status_eqb (status b)) [Pending; Confirmed; InProgress] &&
   (endTime b >? now))%bool.

(** [VehicleService.deleteVehicle(vehicleId)] at instant [now]: a soft
    delete through [findByIdAndUpdate(vehicleId, { isActive: false })]. *)
Definition deleteVehicle (vehicleId : nat) (now : Z) (db : DB)
  : DB * (VehicleDeleteErr + unit) :=
  match vehicle_lookup db vehicleId with
  | None => (db, inl VD_NotFound)
  | Some _ =>
      if Nat.ltb 0 (length (filter (active_booking_query vehicleId now) (bookings db)))
      then (db, inl VD_ActiveBookings)
      else ({| vehicles := update_first_vehicle vehicleId deactivate (vehicles db);
               bookings := bookings db;
               next_id := next_id db |}, inr tt)
  end.

End ServiceRest.

(** ** Notions used to state properties of the remaining functions *)

Module RestNotions.

Import JsString.

(** The first character, if any, is not whitespace. *)
Definition head_ok (s : string) : Prop :=
  match s with
  | EmptyString => True
  | String c _ => is_js_ws c = false
  end.

(** Neither end of [s] is whitespace. *)
Definition ends_ok (s : string) : Prop := head_ok s /\ head_ok (rev_string s).

(** Whitespace in [s] is only single spaces, none right after whitespace;
    [prev_ws] tells whether the character before [s] was whitespace. *)
Fixpoint single_spaced (prev_ws : bool) (s : string) : Prop :=
  match s with
  | EmptyString => True
  | String c r =>
      (if is_js_ws c then c = " "%char /\ prev_ws = false else True) /\
      single_spaced (is_js_ws c) r
  end.

(** Every character of [s] satisfies [f]. *)
Definition all_of (f : ascii -> bool) (s : string) : Prop :=
  forallb f (list_ascii_of_string s) = true.

(** No character of [s] satisfies [f]. *)
Definition none_of (f : ascii -> bool) (s : string) : Prop :=
  all_of (fun c => negb (f c)) s.

(** The order of [.sort({ startTime: 1 })]. *)
Definition start_le (a b : Booking) : Prop := startTime a <= startTime b.

End RestNotions.

(** * Properties *)

Lemma status_eqb_eq (a b : Status) : status_eqb a b = true <-> a = b.
Proof. destruct a, b; simpl; split; congruence. Qed.

Module DurationFacts.

Import TimeUtils SpecNotions.

Lemma digit_not_ws (c : ascii) : is_digit c = true -> is_js_ws c = false.
Proof.
  unfold is_digit, is_js_ws. intros H.
  apply andb_true_iff in H as [H1 H2].
  apply Nat.leb_le in H1. apply Nat.leb_le in H2.
  repeat (apply orb_false_iff; split); apply Nat.eqb_neq; lia.
Qed.

Lemma digit_not_sign (c : ascii) :
  is_digit c = true -> Ascii.eqb c "-"%char = false /\ Ascii.eqb c "+"%char = false.
Proof.
  intros H. split; apply not_true_iff_false; intros E;
    apply Ascii.eqb_eq in E; subst; discriminate.
Qed.

Lemma all_digits_list (s : string) :
  all_digits s = forallb is_digit (list_ascii_of_string s).
Proof. induction s; simpl; congruence. Qed.

Lemma digit_prefix_app (s t : string) (acc : Z) (seen : bool) :
  all_digits s = true ->
  digit_prefix (s ++ t) acc seen =
  digit_prefix t (digits_value_from s acc)
    (match s with EmptyString => seen | String _ _ => true end).
Proof.
  revert acc seen. induction s as [|c r IH]; intros acc seen H; simpl in *.
  - reflexivity.
  - apply andb_true_iff in H as [Hc Hr]. rewrite Hc.
    rewrite IH by exact Hr. destruct r; reflexivity.
Qed.

Lemma digit_prefix_stop (t : string) (acc : Z) :
  starts_with_non_digit t -> digit_prefix t acc true = Some acc.
Proof. destruct t as [|c r]; simpl; [reflexivity|]. intros H; now rewrite H. Qed.

(** [parseInt] of a digit string followed by a non-digit (or nothing) is the
    value of the digits. *)
Lemma parseInt_digits_app (c : ascii) (r t : string) :
  all_digits (String c r) = true -> starts_with_non_digit t ->
  parseInt (String c r ++ t) = Some (code_value (String c r)).
Proof.
  intros H Ht. pose proof H as H'. simpl in H'. apply andb_true_iff in H' as [Hc _].
  unfold parseInt. cbn [append trim_start]. rewrite (digit_not_ws c Hc).
  destruct (digit_not_sign c Hc) as [Hm Hp]. rewrite Hm, Hp.
  change (String c (r ++ t)) with (String c r ++ t).
  rewrite digit_prefix_app by exact H. now apply digit_prefix_stop.
Qed.

Lemma valid_code_shape (s : string) :
  valid_code s -> exists c r, s = String c r /\ all_digits s = true.
Proof.
  intros [H _]. unfold is_six_digits in H. apply andb_true_iff in H as [Hl Hd].
  destruct s as [|c r]; [discriminate|]. exists c, r. split; [reflexivity|].
  now rewrite all_digits_list.
Qed.

Lemma append_nil_r (s : string) : s ++ "" = s.
Proof. induction s; simpl; congruence. Qed.

Lemma parseInt_valid (s : string) : valid_code s -> parseInt s = Some (code_value s).
Proof.
  intros Hv. destruct (valid_code_shape s Hv) as (c & r & -> & Hd).
  rewrite <- (append_nil_r (String c r)) at 1.
  apply parseInt_digits_app; [exact Hd | exact I].
Qed.

Lemma abs_sub_sym (a b : Z) : Z.abs (a - b) = Z.abs (b - a).
Proof. replace (a - b) with (- (b - a)) by lia. apply Z.abs_opp. Qed.

Lemma in_range_tests (v : Z) :
  100000 <= v <= 999999 -> (v <? 100000) = false /\ (v >? 999999) = false.
Proof.
  intros H. split; [apply Z.ltb_ge; lia|]. rewrite Z.gtb_ltb. apply Z.ltb_ge; lia.
Qed.

Lemma estimate_valid (o d : string) :
  valid_code o -> valid_code d ->
  calculateEstimatedDuration o d =
  inr (Qmax (inject_Z (Z.abs (code_value d - code_value o) mod 24)) (1 # 2)).
Proof.
  intros Ho Hd. unfold calculateEstimatedDuration.
  rewrite (parseInt_valid o Ho), (parseInt_valid d Hd).
  destruct (in_range_tests _ (proj2 Ho)) as [E1 E2].
  destruct (in_range_tests _ (proj2 Hd)) as [E3 E4].
  now rewrite E1, E2, E3, E4.
Qed.

Lemma qmax_half (k : Z) :
  0 <= k < 24 ->
  Qmax (inject_Z k) (1 # 2) = 1 # 2 \/
  exists k', (1 <= k' <= 23)%Z /\ Qmax (inject_Z k) (1 # 2) = inject_Z k'.
Proof.
  intros Hk. destruct (Z.eq_dec k 0) as [->|Hn]; [left; reflexivity|].
  right. exists k. split; [lia|].
  unfold Qmax, GenericMinMax.gmax.
  replace (inject_Z k ?= 1 # 2)%Q with Gt; [reflexivity|].
  symmetry. unfold Qcompare, inject_Z; simpl. apply Z.compare_gt_iff. lia.
Qed.

(** C6: on valid six-digit codes, [estimate(o, d)] is
    [max(|int(d) - int(o)| mod 24, 0.5)]; it is symmetric in its two codes,
    its value is 0.5 or an integer in [1, 23], and
    [estimate("110001", "110025") = 0.5]. *)
Theorem estimate_formula_symmetric_bounded (o d : string)
  (Ho : valid_code o) (Hd : valid_code d) :
  calculateEstimatedDuration o d =
    inr (Qmax (inject_Z (Z.abs (code_value d - code_value o) mod 24)) (1 # 2))
  /\ calculateEstimatedDuration o d = calculateEstimatedDuration d o
  /\ (exists r, calculateEstimatedDuration o d = inr r /\
        (r = 1 # 2 \/ exists k, (1 <= k <= 23)%Z /\ r = inject_Z k))
  /\ calculateEstimatedDuration "110001" "110025" = inr (1 # 2).
Proof.
  rewrite (estimate_valid o d Ho Hd), (estimate_valid d o Hd Ho), abs_sub_sym.
  split; [reflexivity|]. split; [reflexivity|]. split; [|vm_compute; reflexivity].
  eexists; split; [reflexivity|].
  apply qmax_half. apply Z.mod_pos_bound. lia.
Qed.

Lemma estimate_formula_symmetric_bounded_witness :
  valid_code "560001" /\ valid_code "560100" /\
  calculateEstimatedDuration "560001" "560100" = inr (inject_Z 3).
Proof.
  assert (Ho : valid_code "560001") by (split; [reflexivity | vm_compute; split; discriminate]).
  assert (Hd : valid_code "560100") by (split; [reflexivity | vm_compute; split; discriminate]).
  split; [exact Ho|]. split; [exact Hd|].
  destruct (estimate_formula_symmetric_bounded "560001" "560100" Ho Hd) as [E _].
  rewrite E. vm_compute. reflexivity.
Defined.

(** The claim of C7 read literally: a string that is not six digits is
    refused. *)
Lemma estimate_accepts_trailing_garbage :
  is_six_digits "110001x" = false /\
  calculateEstimatedDuration "110001x" "110025" = inr (1 # 2).
Proof. split; vm_compute; reflexivity. Qed.

(** C7 (amended): [estimate] fails, always with [InvalidLocationCode],
    exactly when [parseInt] of one of the codes is NaN or outside
    [100000, 999999]; so a valid code followed by any suffix that does not
    start with a digit is accepted as that code. *)
Theorem estimate_rejects_exactly_parse_failures :
  (forall o d,
     (exists e, calculateEstimatedDuration o d = inl e) <->
     rejected_by_parse o \/ rejected_by_parse d)
  /\ (forall o d e, calculateEstimatedDuration o d = inl e -> e = E_InvalidLocationCode)
  /\ (forall code suffix d,
        valid_code code -> starts_with_non_digit suffix ->
        calculateEstimatedDuration (code ++ suffix) d = calculateEstimatedDuration code d
        /\ calculateEstimatedDuration d (code ++ suffix) = calculateEstimatedDuration d code).
Proof.
  split; [|split].
  - intros o d. unfold calculateEstimatedDuration, rejected_by_parse.
    destruct (parseInt o) as [a|], (parseInt d) as [b|]; simpl.
    + destruct (a <? 100000) eqn:E1, (a >? 999999) eqn:E2,
               (b <? 100000) eqn:E3, (b >? 999999) eqn:E4; simpl;
      rewrite ?Z.ltb_lt, ?Z.ltb_ge, ?Z.gtb_ltb, ?Z.ltb_lt, ?Z.ltb_ge in *;
      split; intros H; try (eexists; reflexivity); try lia;
      destruct H as [e He]; discriminate.
    + split; [tauto|]. intros _. eexists; reflexivity.
    + split; [tauto|]. intros _. eexists; reflexivity.
    + split; [tauto|]. intros _. eexists; reflexivity.
  - intros o d e. unfold calculateEstimatedDuration.
    destruct (parseInt o), (parseInt d); try (intros H; inversion H; auto; fail).
    destruct (_ || _)%bool; intros H; inversion H; auto.
  - intros code suffix d Hv Hs.
    destruct (valid_code_shape code Hv) as (c & r & Ec & Hd).
    assert (P : parseInt (code ++ suffix) = parseInt code).
    { rewrite (parseInt_valid code Hv). subst code.
      now apply parseInt_digits_app. }
    unfold calculateEstimatedDuration. now rewrite P.
Qed.

End DurationFacts.

Module EnhancedFacts.

Import TimeUtils SpecNotions Fixtures.

Local Open Scope Q_scope.






End EnhancedFacts.

Module StatusFacts.

Import BookingModel BookingService SpecNotions Fixtures.

Lemma existsb_status_In (t : Status) (l : list Status) :
  existsb (status_eqb t) l = true <-> In t l.
Proof.
  rewrite existsb_exists. split.
  - intros (x & Hx & E). apply status_eqb_eq in E. now subst.
  - intros H. exists t. split; [exact H|]. now apply status_eqb_eq.
Qed.

Lemma canBeCancelled_iff (b : Booking) (now : Z) :
  canBeCancelled b now = true <->
  (status b = Pending \/ status b = Confirmed) /\ startTime b > now + 3600000.
Proof.
  unfold canBeCancelled. rewrite andb_true_iff, existsb_status_In, Z.gtb_lt.
  simpl. split.
  - intros [[H|[H|[]]] L]; split; [left; congruence | lia | right; congruence | lia].
  - intros [[H|H] L]; split; [left; congruence | lia | right; left; congruence | lia].
Qed.

(** The shape of [updateBookingStatus] once the booking is found. *)
Lemma updateBookingStatus_found (db : DB) (id : nat) (cb : Booking) (t : Status)
    (n : option string) (now : Z) :
  booking_lookup db id = Some cb ->
  updateBookingStatus id t n now db =
  catch_app (fun db =>
    if negb (existsb (status_eqb t) (validTransitions (status cb)))
    then (db, inl (E_InvalidStatusTransition (status cb) t)) else
    if (status_eqb t Cancelled && negb (canBeCancelled cb now))%bool
    then (db, inl E_NotCancellable) else
    bind (findByIdAndUpdate id
            {| u_status := t;
               u_notes := match n with
                          | Some s => if String.eqb s "" then None else Some s
                          | None => None
                          end;
               u_actualStartTime :=
                 if (status_eqb t InProgress && is_none (actualStartTime cb))%bool
                 then Some now else None;
               u_actualEndTime :=
                 if (status_eqb t Completed && is_none (actualEndTime cb))%bool
                 then Some now else None |})
         (fun ub => match ub with None => throw E_NullDocument | Some ub => ret ub end)
         db) db.
Proof.
  intros Hl. unfold updateBookingStatus, catch_app, bind at 1, Booking_findById.
  cbv beta. rewrite Hl.
  destruct (negb _); [reflexivity|].
  destruct (_ && _)%bool; reflexivity.
Qed.

(** C4: from status [s], [updateBookingStatus] to [t] succeeds only when
    [t] is in the allowed set of [s] in the transition table; any other
    target fails with [InvalidStatusTransition] naming [s] and [t] and leaves
    the store as it was; [completed] and [cancelled] accept no target. *)
Theorem update_status_transition_closure (db : DB) (id : nat) (cb : Booking)
    (t : Status) (n : option string) (now : Z)
    (Hl : booking_lookup db id = Some cb) :
  (~ In t (validTransitions (status cb)) ->
     updateBookingStatus id t n now db =
     (db, inl (E_InvalidStatusTransition (status cb) t)))
  /\ (forall db' r, updateBookingStatus id t n now db = (db', inr r) ->
        In t (validTransitions (status cb)))
  /\ (status cb = Completed \/ status cb = Cancelled ->
        updateBookingStatus id t n now db =
        (db, inl (E_InvalidStatusTransition (status cb) t))).
Proof.
  rewrite (updateBookingStatus_found db id cb t n now Hl).
  assert (Hno : ~ In t (validTransitions (status cb)) ->
          existsb (status_eqb t) (validTransitions (status cb)) = false).
  { intros Hn. apply not_true_iff_false. now rewrite existsb_status_In. }
  split; [|split].
  - intros Hn. unfold catch_app. now rewrite (Hno Hn).
  - intros db' r H.
    destruct (existsb (status_eqb t) (validTransitions (status cb))) eqn:E.
    + now apply existsb_status_In.
    + unfold catch_app in H. simpl in H. discriminate.
  - intros Ht. unfold catch_app.
    assert (E : validTransitions (status cb) = []) by (destruct Ht as [-> | ->]; reflexivity).
    now rewrite E.
Qed.

Lemma update_status_transition_closure_witness :
  booking_lookup (store_with [mk_booking 5 Completed (10 * HOUR) (12 * HOUR)]) 5
    = Some (mk_booking 5 Completed (10 * HOUR) (12 * HOUR)) /\
  updateBookingStatus 5 InProgress None 0
    (store_with [mk_booking 5 Completed (10 * HOUR) (12 * HOUR)]) =
  (store_with [mk_booking 5 Completed (10 * HOUR) (12 * HOUR)],
   inl (E_InvalidStatusTransition Completed InProgress)).
Proof.
  assert (Hl : booking_lookup (store_with [mk_booking 5 Completed (10 * HOUR) (12 * HOUR)]) 5
               = Some (mk_booking 5 Completed (10 * HOUR) (12 * HOUR))) by reflexivity.
  split; [exact Hl|].
  destruct (update_status_transition_closure _ 5 _ InProgress None 0 Hl) as (_ & _ & H).
  apply H. left. reflexivity.
Defined.

(** C5 read literally: [updateBookingStatus] to [cancelled] on a completed
    booking should fail with [NotCancellable]; it fails with
    [InvalidStatusTransition], as the transition table is checked first. *)
Lemma cancel_completed_reports_transition :
  snd (updateBookingStatus 5 Cancelled None 0
         (store_with [mk_booking 5 Completed (10 * HOUR) (12 * HOUR)]))
  = inl (E_InvalidStatusTransition Completed Cancelled) /\
  snd (updateBookingStatus 5 Cancelled None 0
         (store_with [mk_booking 5 Completed (10 * HOUR) (12 * HOUR)]))
  <> inl E_NotCancellable.
Proof. split; vm_compute; [reflexivity | discriminate]. Qed.

(** C5 (amended): a booking can be cancelled only while it is pending or
    confirmed and starts more than one hour after the current time.
    Otherwise [cancelBooking] fails with [NotCancellable];
    [updateBookingStatus] to [cancelled] fails with [NotCancellable] from
    pending, confirmed and in progress, and with [InvalidStatusTransition]
    from the terminal states completed and cancelled. Every such failure
    leaves the store as it was. *)
Theorem cancellation_rules (db : DB) (id : nat) (cb : Booking) (reason : string)
    (n : option string) (now : Z)
    (Hl : booking_lookup db id = Some cb) :
  (canBeCancelled cb now = false ->
     cancelBooking id reason now db = (db, inl E_NotCancellable))
  /\ (forall db' r, cancelBooking id reason now db = (db', inr r) ->
        (status cb = Pending \/ status cb = Confirmed) /\ startTime cb > now + 3600000)
  /\ (canBeCancelled cb now = false -> In (status cb) [Pending; Confirmed; InProgress] ->
        updateBookingStatus id Cancelled n now db = (db, inl E_NotCancellable))
  /\ (status cb = Completed \/ status cb = Cancelled ->
        updateBookingStatus id Cancelled n now db =
        (db, inl (E_InvalidStatusTransition (status cb) Cancelled)))
  /\ (forall db' r, updateBookingStatus id Cancelled n now db = (db', inr r) ->
        (status cb = Pending \/ status cb = Confirmed) /\ startTime cb > now + 3600000).
Proof.
  assert (Hc : cancelBooking id reason now db =
               catch_app (fun db =>
                 if negb (canBeCancelled cb now) then (db, inl E_NotCancellable)
                 else updateBookingStatus id Cancelled (Some reason) now db) db).
  { unfold cancelBooking, catch_app at 1, bind, Booking_findById. cbv beta.
    rewrite Hl. destruct (negb _); reflexivity. }
  split; [|split; [|split; [|split]]].
  - intros C. rewrite Hc. unfold catch_app. now rewrite C.
  - intros db' r H. rewrite Hc in H. unfold catch_app in H.
    destruct (canBeCancelled cb now) eqn:C.
    + now apply canBeCancelled_iff.
    + simpl in H. discriminate.
  - intros C Hin. rewrite (updateBookingStatus_found db id cb Cancelled n now Hl).
    unfold catch_app. rewrite C.
    destruct (status cb); simpl in Hin |- *; intuition discriminate.
  - intros Ht. rewrite (updateBookingStatus_found db id cb Cancelled n now Hl).
    unfold catch_app.
    assert (E : validTransitions (status cb) = []) by (destruct Ht as [-> | ->]; reflexivity).
    now rewrite E.
  - intros db' r H. rewrite (updateBookingStatus_found db id cb Cancelled n now Hl) in H.
    unfold catch_app in H.
    destruct (negb (existsb (status_eqb Cancelled) (validTransitions (status cb)))).
    + simpl in H. discriminate.
    + destruct (canBeCancelled cb now) eqn:C.
      * now apply canBeCancelled_iff.
      * simpl in H. discriminate.
Qed.

Lemma cancellation_rules_witness :
  booking_lookup (store_with [mk_booking 5 Confirmed (HOUR / 2) (2 * HOUR)]) 5
    = Some (mk_booking 5 Confirmed (HOUR / 2) (2 * HOUR)) /\
  canBeCancelled (mk_booking 5 Confirmed (HOUR / 2) (2 * HOUR)) 0 = false /\
  cancelBooking 5 "Customer request" 0
    (store_with [mk_booking 5 Confirmed (HOUR / 2) (2 * HOUR)]) =
  (store_with [mk_booking 5 Confirmed (HOUR / 2) (2 * HOUR)], inl E_NotCancellable).
Proof.
  assert (Hl : booking_lookup (store_with [mk_booking 5 Confirmed (HOUR / 2) (2 * HOUR)]) 5
               = Some (mk_booking 5 Confirmed (HOUR / 2) (2 * HOUR))) by reflexivity.
  assert (C : canBeCancelled (mk_booking 5 Confirmed (HOUR / 2) (2 * HOUR)) 0 = false)
    by (vm_compute; reflexivity).
  split; [exact Hl|]. split; [exact C|].
  destruct (cancellation_rules _ 5 _ "Customer request" None 0 Hl) as (H & _).
  exact (H C).
Defined.

Lemma find_map_update (f : Booking -> Booking) (id : nat) (l : list Booking) :
  (forall x, b_id (f x) = b_id x) ->
  find (fun b => Nat.eqb (b_id b) id)
       (map (fun x => if Nat.eqb (b_id x) id then f x else x) l)
  = option_map f (find (fun b => Nat.eqb (b_id b) id) l).
Proof.
  intros Hf. induction l as [|x l IH]; simpl; [reflexivity|].
  destruct (Nat.eqb (b_id x) id) eqn:E; simpl.
  - now rewrite Hf, E.
  - now rewrite E.
Qed.

Lemma findByIdAndUpdate_ok (db db' : DB) (id : nat) (u : UpdateFields) (r : Booking) :
  findByIdAndUpdate id u db = (db', inr (Some r)) ->
  exists cb, booking_lookup db id = Some cb /\ r = apply_update u cb /\
             booking_lookup db' id = Some r.
Proof.
  intros H. unfold findByIdAndUpdate in H.
  destruct (u_notes u) as [nt|];
    [destruct (negb (Nat.leb (String.length (trim nt)) 1000)); [discriminate|] |].
  all: destruct (booking_lookup db id) as [cb|] eqn:Hl; [|discriminate].
  all: injection H as <- <-; exists cb; split; [reflexivity|]; split; [reflexivity|].
  all: unfold booking_lookup; simpl; rewrite find_map_update by reflexivity.
  all: unfold booking_lookup in Hl; now rewrite Hl.
Qed.

(** C10: a successful [updateBookingStatus] leaves the booking's vehicle,
    customer, pincodes, scheduled window, estimated duration and cost as
    they were; only status, notes and the actual times may change. *)
Theorem update_status_frame (db db' : DB) (id : nat) (t : Status)
    (n : option string) (now : Z) (r : Booking)
    (H : updateBookingStatus id t n now db = (db', inr r)) :
  exists cb, booking_lookup db id = Some cb /\ booking_lookup db' id = Some r /\
             frame_preserved cb r.
Proof.
  destruct (booking_lookup db id) as [cb|] eqn:Hl.
  2:{ unfold updateBookingStatus, catch_app, bind, Booking_findById in H.
      cbv beta in H. rewrite Hl in H. discriminate. }
  rewrite (updateBookingStatus_found db id cb t n now Hl) in H.
  unfold catch_app in H.
  destruct (negb (existsb (status_eqb t) (validTransitions (status cb)))); [discriminate|].
  destruct (status_eqb t Cancelled && negb (canBeCancelled cb now))%bool; [discriminate|].
  unfold bind in H.
  match type of H with
  | context [findByIdAndUpdate ?i ?u ?d] =>
      destruct (findByIdAndUpdate i u d) as [db1 [e|[ub|]]] eqn:F
  end; simpl in H; try discriminate.
  injection H as <- <-.
  destruct (findByIdAndUpdate_ok _ _ _ _ _ F) as (cb' & Hl' & -> & Hl'').
  rewrite Hl in Hl'. injection Hl' as <-.
  exists cb. split; [reflexivity|]. split; [exact Hl''|].
  repeat split.
Qed.

Lemma update_status_frame_witness :
  exists db' r,
    updateBookingStatus 5 InProgress (Some "started") (9 * HOUR)
      (store_with [mk_booking 5 Confirmed (10 * HOUR) (12 * HOUR)]) = (db', inr r) /\
    exists cb, booking_lookup (store_with [mk_booking 5 Confirmed (10 * HOUR) (12 * HOUR)]) 5
                 = Some cb /\ booking_lookup db' 5 = Some r /\ frame_preserved cb r.
Proof.
  destruct (updateBookingStatus 5 InProgress (Some "started") (9 * HOUR)
              (store_with [mk_booking 5 Confirmed (10 * HOUR) (12 * HOUR)]))
    as [db' [e|r]] eqn:E.
  - vm_compute in E. discriminate.
  - exists db', r. split; [reflexivity|].
    exact (update_status_frame _ db' 5 InProgress (Some "started") (9 * HOUR) r E).
Defined.

End StatusFacts.

Module CreateFacts.

Import TimeUtils BookingModel BookingService SpecNotions Fixtures.

Lemma create_check_eq (bd : BookingInput) (db : DB) :
  create_check bd db =
  (db, match vehicle_lookup db (in_vehicleId bd) with
       | None => inl E_VehicleNotFound
       | Some v =>
           if negb (isActive v) then inl E_VehicleInactive else
           match resolve_window bd with
           | inl e => inl e
           | inr (d, e) =>
               match filter (overlap_query (in_vehicleId bd) (in_startTime bd) e None)
                            (bookings db) with
               | [] => inr (d, e)
               | _ :: _ => inl E_BookingConflict
               end
           end
       end).
Proof.
  unfold create_check, bind, Vehicle_findById, lift, findOverlappingBookings, throw, ret.
  cbv beta. destruct (vehicle_lookup db (in_vehicleId bd)) as [v|]; [|reflexivity].
  destruct (negb (isActive v)); [reflexivity|].
  destruct (resolve_window bd) as [e|[d e]]; [reflexivity|].
  destruct (filter _ _); reflexivity.
Qed.

Lemma save_checks_eq (b : Booking) (now : Z) (db : DB) :
  save_checks b now db =
  (db, if negb (validate b now) then inl E_Schema else
       if status_eqb (status b) Cancelled then inr tt else
       match vehicle_lookup db (vehicleId b) with
       | None => inl (E_Hook HVehicleNotFound)
       | Some v =>
           if negb (isActive v) then inl (E_Hook HVehicleInactive) else
           match filter (overlap_query (vehicleId b) (startTime b) (endTime b) None)
                        (bookings db) with
           | [] => inr tt
           | _ :: _ => inl (E_Hook HNotAvailable)
           end
       end).
Proof.
  unfold save_checks, bind, Vehicle_findById, findOverlappingBookings, throw, ret.
  destruct (negb (validate b now)); [reflexivity|].
  destruct (status_eqb (status b) Cancelled); [reflexivity|].
  destruct (vehicle_lookup db (vehicleId b)) as [v|]; [|reflexivity].
  destruct (negb (isActive v)); [reflexivity|].
  destruct (filter _ _); reflexivity.
Qed.

Lemma createBooking_unfold (bd : BookingInput) (now : Z) (db : DB) :
  createBooking bd now db =
  match
    match create_check bd db with
    | (db1, inl e) => (db1, inl e)
    | (db1, inr r) =>
        match save_checks (newBooking bd (fst r) (snd r)) now db1 with
        | (db2, inl e) => (db2, inl e)
        | (db2, inr _) =>
            let db3 := {| vehicles := vehicles db2;
                          bookings := bookings db2 ++
                                      [with_id (next_id db2) (newBooking bd (fst r) (snd r))];
                          next_id := S (next_id db2) |} in
            (db3, inr (booking_lookup db3 (next_id db2)))
        end
    end with
  | (db', inl e) => (db', inl (if is_app_error e then e else E_Server e))
  | r => r
  end.
Proof.
  unfold createBooking, catch_app, bind.
  destruct (create_check bd db) as [db1 [e|r]]; [reflexivity|].
  unfold create_save, bind.
  destruct (save_checks _ now db1) as [db2 [e|[]]]; reflexivity.
Qed.

(** Every failing [createBooking] returns the store it was given. *)
Lemma createBooking_fail_store (bd : BookingInput) (now : Z) (db db' : DB) (e : Err) :
  createBooking bd now db = (db', inl e) -> db' = db.
Proof.
  rewrite createBooking_unfold, create_check_eq.
  destruct (vehicle_lookup db (in_vehicleId bd)) as [v|]; [|intros H; now injection H].
  destruct (negb (isActive v)); [intros H; now injection H|].
  destruct (resolve_window bd) as [e0|[d en]]; [intros H; now injection H|].
  destruct (filter _ _); [|intros H; now injection H].
  simpl. rewrite save_checks_eq.
  destruct (if negb _ then _ else _) as [e2|[]]; [intros H; now injection H|discriminate].
Qed.

(** The shape of a successful [createBooking]. *)
Lemma createBooking_success (bd : BookingInput) (now : Z) (db db' : DB)
    (r : option Booking) :
  createBooking bd now db = (db', inr r) ->
  exists v d e,
    vehicle_lookup db (in_vehicleId bd) = Some v /\ isActive v = true /\
    resolve_window bd = inr (d, e) /\
    filter (overlap_query (in_vehicleId bd) (in_startTime bd) e None) (bookings db) = [] /\
    db' = {| vehicles := vehicles db;
             bookings := bookings db ++ [with_id (next_id db) (newBooking bd d e)];
             next_id := S (next_id db) |} /\
    r = booking_lookup db' (next_id db).
Proof.
  rewrite createBooking_unfold, create_check_eq.
  destruct (vehicle_lookup db (in_vehicleId bd)) as [v|] eqn:Hv; [|discriminate].
  destruct (isActive v) eqn:Ha; [|discriminate]. simpl.
  destruct (resolve_window bd) as [e0|[d e]] eqn:Hw; [discriminate|].
  destruct (filter _ (bookings db)) eqn:Hf; [|discriminate].
  simpl. rewrite save_checks_eq.
  destruct (if negb _ then _ else _) as [e2|[]]; [discriminate|].
  intros H. injection H as <- <-.
  exists v, d, e. repeat split; assumption.
Qed.

Lemma find_app_fresh (l : list Booking) (x : Booking) (n : nat) :
  Forall (fun b => (b_id b < n)%nat) l -> b_id x = n ->
  find (fun b => Nat.eqb (b_id b) n) (l ++ [x]) = Some x.
Proof.
  intros Hl Hx. induction Hl as [|y l Hy Hl IH]; simpl.
  - now rewrite Hx, Nat.eqb_refl.
  - destruct (Nat.eqb (b_id y) n) eqn:E; [apply Nat.eqb_eq in E; lia|exact IH].
Qed.

Lemma resolve_window_spec (bd : BookingInput) (d : Q) (e : Z) :
  resolve_window bd = inr (d, e) ->
  (match num_truthy (in_estimatedRideDurationHours bd) with
   | Some d0 => d = d0
   | None => calculateEstimatedDuration (in_fromPincode bd) (in_toPincode bd) = inr d
   end) /\
  (match in_endTime bd with
   | Some e0 => e = e0
   | None => calculateEndTime (in_startTime bd) d = inr e
   end).
Proof.
  unfold resolve_window.
  destruct (num_truthy (in_estimatedRideDurationHours bd)) as [d0|];
    [|destruct (calculateEstimatedDuration _ _) as [x|d0] eqn:Hc; [discriminate|]];
    destruct (in_endTime bd) as [e0|];
    try (destruct (calculateEndTime _ _) as [y|e0] eqn:Hce; [discriminate|]);
    intros H; injection H as <- <-; auto.
Qed.


Lemma live_query (s : Status) :
  not_cancelled_or_completed s = true <-> s <> Cancelled /\ s <> Completed.
Proof. destruct s; simpl; intuition discriminate. Qed.

(** C3 (counterexample): a caller-supplied duration of [0] is present, yet
    the created booking carries the estimate ([0.5] h for 110001 to 110025),
    because the source selects the duration with [||]. *)
Lemma create_zero_duration_uses_estimate :
  in_estimatedRideDurationHours (request_estimated (2 * HOUR) (Some 0%Q)) = Some 0%Q /\
  exists db' b,
    createBooking (request_estimated (2 * HOUR) (Some 0%Q)) 0 (store_with []) =
      (db', inr (Some b)) /\
    estimatedRideDurationHours b = (1 # 2)%Q /\ ~ (estimatedRideDurationHours b == 0)%Q.
Proof.
  split; [reflexivity|].
  do 2 eexists. split; [vm_compute; reflexivity|].
  split; [reflexivity|]. simpl. discriminate.
Qed.

(** C3 (amended): [createBooking] fails with VehicleNotFound when the vehicle
    is absent and with VehicleInactive when it is inactive; every failure
    returns the store unchanged; on success (with booking ids below the next
    fresh id) exactly one booking is appended and returned, its status is
    confirmed whatever the caller sent, its duration is the caller's when
    present and non-zero and the estimate otherwise, and its end time is the
    caller's when present and [calculateEndTime start duration] otherwise. *)
Theorem create_booking_outcomes (db : DB) (bd : BookingInput) (now : Z)
    (Hids : ids_below db) :
  (vehicle_lookup db (in_vehicleId bd) = None ->
   createBooking bd now db = (db, inl E_VehicleNotFound)) /\
  (forall v, vehicle_lookup db (in_vehicleId bd) = Some v -> isActive v = false ->
   createBooking bd now db = (db, inl E_VehicleInactive)) /\
  (forall db' e, createBooking bd now db = (db', inl e) -> db' = db) /\
  (forall db' r, createBooking bd now db = (db', inr r) ->
   exists b,
     r = Some b /\ bookings db' = (bookings db ++ [b])%list /\
     vehicleId b = in_vehicleId bd /\ startTime b = in_startTime bd /\
     status b = Confirmed /\
     match num_truthy (in_estimatedRideDurationHours bd) with
     | Some d => estimatedRideDurationHours b = d
     | None => calculateEstimatedDuration (in_fromPincode bd) (in_toPincode bd) =
               inr (estimatedRideDurationHours b)
     end /\
     match in_endTime bd with
     | Some e => endTime b = e
     | None => calculateEndTime (in_startTime bd) (estimatedRideDurationHours b) =
               inr (endTime b)
     end).
Proof.
  split; [|split; [|split]].
  - intros Hv. rewrite createBooking_unfold, create_check_eq, Hv. reflexivity.
  - intros v Hv Ha. rewrite createBooking_unfold, create_check_eq, Hv, Ha. reflexivity.
  - apply createBooking_fail_store.
  - intros db' r H.
    destruct (createBooking_success bd now db db' r H)
      as (v & d & e & Hv & Ha & Hw & Hf & -> & ->).
    exists (with_id (next_id db) (newBooking bd d e)).
    destruct (resolve_window_spec bd d e Hw) as [Hd He].
    split; [|split; [reflexivity|]].
    + unfold booking_lookup. simpl. now apply find_app_fresh.
    + simpl. repeat split; assumption.
Qed.

Lemma create_booking_outcomes_witness :
  ids_below (store_with []) /\
  exists db' b,
    createBooking (request (2 * HOUR)) 0 (store_with []) = (db', inr (Some b)) /\
    bookings db' = [b] /\ status b = Confirmed /\
    estimatedRideDurationHours b = 2%Q /\ endTime b = 4 * HOUR.
Proof.
  split; [constructor|].
  destruct (createBooking (request (2 * HOUR)) 0 (store_with [])) as [db' [e|r]] eqn:H.
  - vm_compute in H. discriminate.
  - destruct (create_booking_outcomes (store_with []) (request (2 * HOUR)) 0
                ltac:(constructor)) as (_ & _ & _ & S).
    destruct (S db' r H) as (b & -> & Hb & _ & _ & Hs & Hd & He).
    exists db', b. simpl in Hb, Hd, He.
    repeat split; [exact Hb|exact Hs|exact Hd|rewrite He; reflexivity].
Defined.







End CreateFacts.

Module RaceFacts.

Import BookingModel BookingService SpecNotions Fixtures Concurrent CreateFacts.

(** A single thread run to completion is [createBooking]. *)
Lemma run_single_thread (bd : BookingInput) (now : Z) (db : DB) :
  run now [0; 0; 0]%nat [TStart bd] db =
  (fst (createBooking bd now db), [TDone (snd (createBooking bd now db))]).
Proof.
  rewrite createBooking_unfold. cbn -[create_check save_checks].
  destruct (create_check bd db) as [db1 [e|r]]; [reflexivity|].
  cbn -[create_check save_checks].
  destruct (save_checks _ now db1) as [db2 [e|[]]]; reflexivity.
Qed.

(** C1: two [createBooking] calls for vehicle 1 with the overlapping windows
    [2h, 4h) and [3h, 5h), interleaved at their [await]s (both conflict
    checks, then both schema hooks, then both inserts), both succeed and
    leave two overlapping confirmed bookings of the vehicle; run one after
    the other, the second fails with BookingConflict. *)
Theorem concurrent_creates_both_succeed :
  (exists db' b1 b2,
     run 0 [0; 1; 0; 1; 0; 1]%nat
       [TStart (request (2 * HOUR)); TStart (request (3 * HOUR))] (store_with []) =
       (db', [TDone (inr (Some b1)); TDone (inr (Some b2))]) /\
     bookings db' = [b1; b2] /\
     vehicleId b1 = vehicleId b2 /\ status b1 = Confirmed /\ status b2 = Confirmed /\
     overlaps (startTime b1) (endTime b1) (startTime b2) (endTime b2) /\
     ~ no_double_booking (bookings db')) /\
  (exists db' b1,
     run 0 [0; 0; 0; 1; 1; 1]%nat
       [TStart (request (2 * HOUR)); TStart (request (3 * HOUR))] (store_with []) =
       (db', [TDone (inr (Some b1)); TDone (inl E_BookingConflict)])).
Proof.
  split; [|do 2 eexists; vm_compute; reflexivity].
  do 3 eexists. split; [vm_compute; reflexivity|].
  split; [reflexivity|].
  assert (Ho : overlaps (2 * HOUR) (4 * HOUR) (3 * HOUR) (5 * HOUR))
    by (unfold overlaps, HOUR; lia).
  simpl. repeat split; try exact Ho.
  intros H. inversion H as [|? ? Hf _]; subst.
  inversion Hf as [|? ? Hc _]; subst.
  unfold compatible, live in Hc. simpl in Hc.
  destruct Hc as [C|[C|[C|C]]]; apply C; try reflexivity;
    try (split; discriminate); exact Ho.
Qed.

End RaceFacts.

Module AvailabilityFacts.

Import TimeUtils VehicleService SpecNotions Fixtures.

Lemma compare_available_order (x y : AvailableVehicle) :
  if compare_available x y <? 0 then dispatch_le x y else dispatch_le y x.
Proof.
  unfold compare_available, dispatch_le.
  destruct (capacityKg (av_vehicle x) =? capacityKg (av_vehicle y)) eqn:Ec; simpl.
  - apply Z.eqb_eq in Ec. rewrite Ec.
    destruct (createdAt (av_vehicle y) - createdAt (av_vehicle x) <? 0) eqn:E.
    + apply Z.ltb_lt in E. right. split; [reflexivity|lia].
    + apply Z.ltb_ge in E. right. split; [reflexivity|lia].
  - apply Z.eqb_neq in Ec.
    destruct (capacityKg (av_vehicle x) - capacityKg (av_vehicle y) <? 0) eqn:E.
    + apply Z.ltb_lt in E. left. lia.
    + apply Z.ltb_ge in E. left. lia.
Qed.

Lemma insert_sorted_HdRel (x y : AvailableVehicle) (l : list AvailableVehicle) :
  HdRel dispatch_le y l -> dispatch_le y x -> HdRel dispatch_le y (insert_sorted x l).
Proof.
  intros Hh Hyx. destruct l as [|z zs]; simpl.
  - now constructor.
  - destruct (compare_available x z <? 0); constructor; [exact Hyx|].
    now inversion Hh.
Qed.

Lemma insert_sorted_Sorted (x : AvailableVehicle) (l : list AvailableVehicle) :
  Sorted dispatch_le l -> Sorted dispatch_le (insert_sorted x l).
Proof.
  induction l as [|y ys IH]; intros Hs; simpl.
  - repeat constructor.
  - pose proof (compare_available_order x y) as Ho.
    destruct (compare_available x y <? 0).
    + constructor; [exact Hs|now constructor].
    + apply Sorted_inv in Hs as [Hs Hh].
      constructor; [now apply IH|now apply insert_sorted_HdRel].
Qed.

Lemma sort_available_Sorted (l : list AvailableVehicle) :
  Sorted dispatch_le (sort_available l).
Proof.
  unfold sort_available.
  assert (G : forall acc, Sorted dispatch_le acc ->
              Sorted dispatch_le (fold_left (fun acc x => insert_sorted x acc) l acc)).
  { induction l as [|x l IH]; intros acc Ha; simpl; [exact Ha|].
    apply IH. now apply insert_sorted_Sorted. }
  apply G. constructor.
Qed.

(** C9: every successful [findAvailableVehicles] returns its available
    vehicles sorted by capacity ascending, the most recently created first
    among equal capacities; [totalSuitable] is the number of suitable
    vehicles when there is at least one, and is absent from the result when
    there is none. *)
Theorem available_sorted_and_totals (p : SearchParams) (db db' : DB)
    (res : AvailabilityResult) :
  findAvailableVehicles p db = (db', inr res) ->
  Sorted dispatch_le (availableVehicles res) /\
  totalSuitable res =
    match filter (vehicleQuery p) (vehicles db) with
    | [] => None
    | l => Some (length l)
    end.
Proof.
  unfold findAvailableVehicles, catch_all, bind, lift, Vehicle_find, ret.
  destruct (calculateEstimatedDuration (sp_fromPincode p) (sp_toPincode p))
    as [e|d]; [discriminate|].
  destruct (calculateEndTime (sp_startTime p) d) as [e|en]; [discriminate|].
  destruct (filter (vehicleQuery p) (vehicles db)) as [|v vs].
  - intros H. injection H as _ <-. split; [constructor|reflexivity].
  - destruct (mapM (check_vehicle p en) (v :: vs) db) as [db2 [e|rs]];
      [discriminate|].
    intros H. injection H as _ <-. split; [apply sort_available_Sorted|reflexivity].
Qed.

Lemma available_sorted_and_totals_witness :
  exists db' res,
    findAvailableVehicles search_heavy (store_with []) = (db', inr res) /\
    availableVehicles res = [] /\ totalSuitable res = None.
Proof.
  destruct (findAvailableVehicles search_heavy (store_with [])) as [db' [e|res]] eqn:H.
  - vm_compute in H. discriminate.
  - exists db', res. split; [reflexivity|].
    destruct (available_sorted_and_totals search_heavy (store_with []) db' res H)
      as [Hs Ht].
    split; [|exact Ht].
    vm_compute in H. injection H as _ <-. reflexivity.
Defined.

End AvailabilityFacts.

Module TimeFacts.

Import TimeUtils TimeUtilsRest.

Lemma tro_valid_iff (s1 e1 s2 e2 : Z) :
  s1 < e1 -> s2 < e2 ->
  (timeRangesOverlap (Some s1) (Some e1) (Some s2) (Some e2) = inr true
   <-> s1 < e2 /\ s2 < e1).
Proof.
  intros H1 H2. unfold timeRangesOverlap.
  replace (e1 <=? s1) with false by (symmetry; apply Z.leb_gt; lia).
  replace (e2 <=? s2) with false by (symmetry; apply Z.leb_gt; lia).
  simpl. rewrite Z.gtb_ltb. split.
  - intros E. injection E as E. apply andb_true_iff in E as [A B].
    apply Z.ltb_lt in A. apply Z.ltb_lt in B. lia.
  - intros [A B]. apply Z.ltb_lt in A. apply Z.ltb_lt in B. now rewrite A, B.
Qed.

(** [timeRangesOverlap] fails exactly when one range is empty or reversed;
    it is symmetric in the two ranges; on well-formed ranges it answers
    whether they share an instant; ranges that only touch do not overlap. *)
Theorem time_ranges_overlap_behaviour (s1 e1 s2 e2 : Z) :
  (timeRangesOverlap (Some s1) (Some e1) (Some s2) (Some e2) = inl OE_EndNotAfterStart
     <-> e1 <= s1 \/ e2 <= s2) /\
  timeRangesOverlap (Some s1) (Some e1) (Some s2) (Some e2) =
  timeRangesOverlap (Some s2) (Some e2) (Some s1) (Some e1) /\
  (s1 < e1 -> s2 < e2 ->
   (timeRangesOverlap (Some s1) (Some e1) (Some s2) (Some e2) = inr true
    <-> s1 < e2 /\ s2 < e1)) /\
  (s1 < e1 -> e1 < e2 ->
   timeRangesOverlap (Some s1) (Some e1) (Some e1) (Some e2) = inr false).
Proof.
  unfold timeRangesOverlap. refine (conj _ (conj _ (conj _ _))).
  - destruct (e1 <=? s1) eqn:E1, (e2 <=? s2) eqn:E2; simpl;
      rewrite ?Z.leb_le, ?Z.leb_gt in *; split; intros; try discriminate; try lia; auto.
  - rewrite orb_comm, !Z.gtb_ltb, andb_comm. reflexivity.
  - apply tro_valid_iff.
  - intros H1 H2.
    replace (e1 <=? s1) with false by (symmetry; apply Z.leb_gt; lia).
    replace (e2 <=? e1) with false by (symmetry; apply Z.leb_gt; lia).
    simpl. rewrite Z.gtb_ltb, Z.ltb_irrefl, andb_false_r. reflexivity.
Qed.

Lemma time_ranges_overlap_behaviour_witness :
  (1 < 5 /\ 5 < 9) /\
  timeRangesOverlap (Some 1) (Some 5) (Some 5) (Some 9) = inr false.
Proof.
  split; [lia|].
  destruct (time_ranges_overlap_behaviour 1 5 5 9) as (_ & _ & _ & H).
  apply H; lia.
Defined.

Lemma js_trunc_Z (z : Z) : js_trunc (inject_Z z) = z.
Proof.
  unfold js_trunc. destruct (Qle_bool 0 (inject_Z z)).
  - apply Qfloor_Z.
  - change (- inject_Z z)%Q with (inject_Z (- z)). rewrite Qfloor_Z. lia.
Qed.

Lemma time_clip_comp (x y : Q) : (x == y)%Q -> time_clip x = time_clip y.
Proof.
  intros H. unfold time_clip, js_trunc.
  assert (Ha : (Qabs x == Qabs y)%Q) by now rewrite H.
  destruct (Qle_bool (Qabs x) _) eqn:E1, (Qle_bool (Qabs y) _) eqn:E2; try reflexivity.
  - destruct (Qle_bool 0 x) eqn:F1, (Qle_bool 0 y) eqn:F2.
    + f_equal. now apply Qfloor_comp.
    + exfalso. apply not_true_iff_false in F2. apply F2, Qle_bool_iff.
      apply Qle_bool_iff in F1. now rewrite <- H.
    + exfalso. apply not_true_iff_false in F1. apply F1, Qle_bool_iff.
      apply Qle_bool_iff in F2. now rewrite H.
    + f_equal. f_equal. apply Qfloor_comp. now rewrite H.
  - exfalso. apply not_true_iff_false in E2. apply E2, Qle_bool_iff.
    apply Qle_bool_iff in E1. now rewrite <- Ha.
  - exfalso. apply not_true_iff_false in E1. apply E1, Qle_bool_iff.
    apply Qle_bool_iff in E2. now rewrite Ha.
Qed.

Lemma time_clip_Z (z : Z) : Z.abs z <= 8640000000000000 -> time_clip (inject_Z z) = Some z.
Proof.
  intros H. unfold time_clip.
  change (Qabs (inject_Z z)) with (inject_Z (Z.abs z)).
  replace (Qle_bool _ _) with true; [now rewrite js_trunc_Z|].
  symmetry. apply Qle_bool_iff. now rewrite <- Zle_Qle.
Qed.

Lemma time_clip_out (x : Q) :
  (inject_Z 8640000000000000 < Qabs x)%Q -> time_clip x = None.
Proof.
  intros H. unfold time_clip.
  replace (Qle_bool _ _) with false; [reflexivity|].
  symmetry. apply not_true_iff_false. rewrite Qle_bool_iff. now apply Qlt_not_le.
Qed.

(** With no options and a current time well inside the [Date] range,
    [validateFutureDate] accepts exactly the dates in
    [now + 5 min, now + 365 days]. A bound that lies beyond the [Date]
    range (|now + offset| > 8.64e15 ms) is an Invalid Date, and the check
    against it never fails: a too large [minMinutesFromNow] disables the
    lower bound, a too large [maxDaysFromNow] the upper one. *)
Theorem future_date_window (t now : Z) (o : FutureDateOptions) :
  (0 <= now <= 8640000000000000 - 31536000000 ->
   (validateFutureDate (Some t) {| minMinutesFromNow := None; maxDaysFromNow := None |} now
      = FD_Valid <-> now + 300000 <= t <= now + 31536000000)) /\
  ((inject_Z 8640000000000000 < Qabs (inject_Z now + effective_minMinutes o * 60 * 1000))%Q ->
   forall m, validateFutureDate (Some t) o now <> FD_TooSoon m) /\
  ((inject_Z 8640000000000000 <
      Qabs (inject_Z now + effective_maxDays o * 24 * 60 * 60 * 1000))%Q ->
   forall d, validateFutureDate (Some t) o now <> FD_TooLate d).
Proof.
  refine (conj _ (conj _ _)).
  - intros Hn. unfold validateFutureDate.
    change (effective_minMinutes _) with (5 # 1)%Q.
    change (effective_maxDays _) with (365 # 1)%Q.
    rewrite (time_clip_comp (inject_Z now + (5 # 1) * 60 * 1000) (inject_Z (now + 300000)))
      by (rewrite inject_Z_plus; ring).
    rewrite (time_clip_comp (inject_Z now + (365 # 1) * 24 * 60 * 60 * 1000)
                            (inject_Z (now + 31536000000)))
      by (rewrite inject_Z_plus; ring).
    rewrite !time_clip_Z by lia. unfold date_lt, date_gt.
    destruct (t <? _) eqn:E1; [|destruct (t >? _) eqn:E2].
    + apply Z.ltb_lt in E1. split; [discriminate|lia].
    + apply Z.gtb_lt in E2. split; [discriminate|lia].
    + apply Z.ltb_ge in E1. rewrite Z.gtb_ltb in E2. apply Z.ltb_ge in E2.
      split; [lia|reflexivity].
  - intros H m. unfold validateFutureDate. cbv zeta.
    rewrite (time_clip_out _ H). simpl.
    destruct (date_gt _ _); discriminate.
  - intros H d. unfold validateFutureDate. cbv zeta.
    rewrite (time_clip_out _ H). simpl.
    destruct (date_lt _ _); discriminate.
Qed.

(** A date ten minutes ahead is too soon for [minMinutesFromNow = 20] and
    accepted for [minMinutesFromNow = 2e11]. *)
Lemma future_date_window_witness :
  validateFutureDate (Some 1760000600000)
    {| minMinutesFromNow := Some 20%Q; maxDaysFromNow := None |} 1760000000000
    = FD_TooSoon 20 /\
  validateFutureDate (Some 1760000600000)
    {| minMinutesFromNow := Some 200000000000%Q; maxDaysFromNow := None |} 1760000000000
    = FD_Valid /\
  (forall m, validateFutureDate (Some 1760000600000)
     {| minMinutesFromNow := Some 200000000000%Q; maxDaysFromNow := None |} 1760000000000
     <> FD_TooSoon m).
Proof.
  split; [vm_compute; reflexivity|]. split; [vm_compute; reflexivity|].
  apply (proj1 (proj2 (future_date_window 1760000600000 1760000000000
           {| minMinutesFromNow := Some 200000000000%Q; maxDaysFromNow := None |}))).
  vm_compute. reflexivity.
Defined.

Lemma Qfloor_unique (q : Q) (k : Z) :
  (inject_Z k <= q)%Q -> (q < inject_Z (k + 1))%Q -> Qfloor q = k.
Proof.
  intros H1 H2. apply Z.le_antisymm.
  - assert (Qfloor q < k + 1); [|lia].
    rewrite Zlt_Qlt. apply (Qle_lt_trans _ q); [apply Qfloor_le | exact H2].
  - rewrite <- (Qfloor_Z k) at 1. now apply Qfloor_resp_le.
Qed.

Lemma frac_bounds (h : Q) :
  (0 <= h - inject_Z (Qfloor h))%Q /\ (h - inject_Z (Qfloor h) < 1)%Q.
Proof.
  pose proof (Qfloor_le h). pose proof (Qlt_floor h).
  rewrite inject_Z_plus in H0. change (inject_Z 1) with 1%Q in H0.
  set (w := inject_Z (Qfloor h)) in *. split; lra.
Qed.

Lemma duration_minutes_bounds (h : Q) :
  0 <= duration_minutes h <= 60 /\
  (duration_minutes h = 60 <-> (119 # 120 <= h - inject_Z (Qfloor h))%Q).
Proof.
  unfold duration_minutes. destruct (frac_bounds h) as [F0 F1].
  set (f := (h - inject_Z (Qfloor h))%Q) in *.
  set (x := (f * 60 + (1 # 2))%Q).
  pose proof (Qfloor_le x) as L. pose proof (Qlt_floor x) as U.
  rewrite inject_Z_plus in U. change (inject_Z 1) with 1%Q in U.
  set (m := Qfloor x) in *. split; [split|split].
  - assert (-1 < m); [|lia]. rewrite Zlt_Qlt.
    change (inject_Z (-1)) with (-1)%Q. unfold x in *; lra.
  - assert (m < 61); [|lia]. rewrite Zlt_Qlt.
    change (inject_Z 61) with 61%Q. unfold x in *; lra.
  - intros E. rewrite E in L. change (inject_Z 60) with 60%Q in L.
    unfold x in L. lra.
  - intros E. apply Qfloor_unique; change (inject_Z 60) with 60%Q;
      change (inject_Z (60 + 1)) with 61%Q; unfold x; lra.
Qed.

(** The minutes of [formatDuration] lie in [0, 60] and reach [60] exactly
    when the fractional hour is at least 119/120; the minute carry is not
    propagated, so such durations print as whole hours and [60 minutes]. *)
Theorem format_duration_carry (h : Q) (H : (0 <= h)%Q) :
  (0 <= duration_minutes h <= 60) /\
  (duration_minutes h = 60 <-> (119 # 120 <= h - inject_Z (Qfloor h))%Q) /\
  ((119 # 120 <= h - inject_Z (Qfloor h))%Q -> 1 <= Qfloor h ->
   formatDuration h =
   Z_to_dec (Qfloor h) ++ " hour" ++ (if Qfloor h =? 1 then "" else "s") ++ " 60 minutes") /\
  ((119 # 120 <= h - inject_Z (Qfloor h))%Q -> Qfloor h = 0 ->
   formatDuration h = "60 minutes").
Proof.
  destruct (duration_minutes_bounds h) as [B E].
  refine (conj B (conj E (conj _ _))).
  - intros F W. apply E in F. unfold formatDuration.
    replace (Qle_bool 0 h) with true by (symmetry; now apply Qle_bool_iff).
    rewrite F. replace (Qfloor h =? 0) with false by (symmetry; apply Z.eqb_neq; lia).
    reflexivity.
  - intros F W. apply E in F. unfold formatDuration.
    replace (Qle_bool 0 h) with true by (symmetry; now apply Qle_bool_iff).
    rewrite F, W. reflexivity.
Qed.

Lemma format_duration_carry_witness :
  (0 <= 719 # 240)%Q /\ formatDuration (719 # 240) = "2 hours 60 minutes".
Proof.
  assert (H0 : (0 <= 719 # 240)%Q) by (apply Qle_bool_imp_le; reflexivity).
  split; [exact H0|].
  destruct (format_duration_carry (719 # 240) H0) as (_ & _ & H & _).
  rewrite H; [reflexivity | apply Qle_bool_imp_le; reflexivity | apply Z.leb_le; reflexivity].
Defined.


End TimeFacts.

Module StringFacts.

Import RestNotions SpecNotions DurationFacts.

Lemma list_ascii_app (a b : string) :
  list_ascii_of_string (a ++ b) = (list_ascii_of_string a ++ list_ascii_of_string b)%list.
Proof. induction a; simpl; congruence. Qed.

Lemma string_of_list_app (l m : list ascii) :
  string_of_list_ascii (l ++ m) = string_of_list_ascii l ++ string_of_list_ascii m.
Proof. induction l; simpl; congruence. Qed.

Lemma rev_string_app (a b : string) :
  rev_string (a ++ b) = rev_string b ++ rev_string a.
Proof. unfold rev_string. now rewrite list_ascii_app, rev_app_distr, string_of_list_app. Qed.

Lemma rev_string_involutive (s : string) : rev_string (rev_string s) = s.
Proof.
  unfold rev_string. rewrite list_ascii_of_string_of_list_ascii, rev_involutive.
  apply string_of_list_ascii_of_string.
Qed.

Lemma rev_string_cons (c : ascii) (t : string) :
  rev_string (String c t) = rev_string t ++ String c "".
Proof. exact (rev_string_app (String c "") t). Qed.

Lemma in_rev_string (c : ascii) (s : string) :
  In c (list_ascii_of_string (rev_string s)) <-> In c (list_ascii_of_string s).
Proof.
  unfold rev_string. rewrite list_ascii_of_string_of_list_ascii. split; [apply in_rev|].
  intros H. now apply in_rev in H.
Qed.

Lemma all_of_In (f : ascii -> bool) (s : string) :
  all_of f s <-> forall c, In c (list_ascii_of_string s) -> f c = true.
Proof. apply forallb_forall. Qed.

Lemma all_of_rev (f : ascii -> bool) (s : string) : all_of f s -> all_of f (rev_string s).
Proof. rewrite !all_of_In. intros H c Hc. apply H. now apply in_rev_string. Qed.

Lemma trim_start_split (s : string) :
  exists w, s = w ++ trim_start s /\ all_of is_js_ws w.
Proof.
  induction s as [|c r [w [Hw Ha]]]; simpl.
  - exists "". split; reflexivity.
  - destruct (is_js_ws c) eqn:E.
    + exists (String c w). split; [simpl; congruence|]. unfold all_of; simpl. now rewrite E.
    + exists "". split; reflexivity.
Qed.

Lemma head_ok_trim_start (s : string) : head_ok (trim_start s).
Proof.
  induction s as [|c r IH]; simpl; [exact I|].
  destruct (is_js_ws c) eqn:E; [exact IH | exact E].
Qed.

Lemma trim_start_head_ok (s : string) : head_ok s -> trim_start s = s.
Proof. destruct s as [|c r]; simpl; [reflexivity|]. intros H; now rewrite H. Qed.

Lemma trim_start_idem (s : string) : trim_start (trim_start s) = trim_start s.
Proof. apply trim_start_head_ok, head_ok_trim_start. Qed.

(** [trim] removes trailing whitespace from what [trim_start] leaves. *)
Lemma trim_start_trim (s : string) :
  exists w, trim_start s = trim s ++ w /\ all_of is_js_ws w.
Proof.
  destruct (trim_start_split (rev_string (trim_start s))) as [w [Hw Ha]].
  exists (rev_string w). split; [|now apply all_of_rev].
  unfold trim. rewrite <- (rev_string_involutive (trim_start s)) at 1.
  rewrite Hw at 1. apply rev_string_app.
Qed.

Lemma ends_ok_trim (s : string) : ends_ok (trim s).
Proof.
  split.
  - destruct (trim_start_trim s) as [w [Hw _]].
    pose proof (head_ok_trim_start s) as H. rewrite Hw in H.
    destruct (trim s); [exact I | exact H].
  - unfold trim. rewrite rev_string_involutive. apply head_ok_trim_start.
Qed.

Lemma trim_ends_ok (s : string) : ends_ok s -> trim s = s.
Proof.
  intros [H1 H2]. unfold trim.
  rewrite (trim_start_head_ok s H1), (trim_start_head_ok _ H2).
  apply rev_string_involutive.
Qed.

Lemma head_ok_no_ws (s : string) :
  all_of (fun c => negb (is_js_ws c)) s -> head_ok s.
Proof.
  destruct s as [|c r]; simpl; [trivial|]. unfold all_of; simpl.
  intros H. apply andb_true_iff in H as [H _]. now apply negb_true_iff.
Qed.

Lemma no_ws_trim (s : string) : all_of (fun c => negb (is_js_ws c)) s -> trim s = s.
Proof.
  intros H. apply trim_ends_ok. split; [exact (head_ok_no_ws s H)|].
  apply head_ok_no_ws. now apply all_of_rev.
Qed.

Lemma ws_not_digit (w : string) : all_of is_js_ws w -> starts_with_non_digit w.
Proof.
  destruct w as [|c r]; simpl; [trivial|]. unfold all_of; simpl.
  intros H. apply andb_true_iff in H as [H _].
  destruct (is_digit c) eqn:E; [|reflexivity].
  now rewrite (digit_not_ws c E) in H.
Qed.

Lemma parseInt_trim_start (s : string) : parseInt (trim_start s) = parseInt s.
Proof. unfold parseInt. now rewrite trim_start_idem. Qed.

(** [parseInt] reads a code through the whitespace around it. *)
Lemma parseInt_trimmed (s : string) :
  all_digits (trim s) = true -> trim s <> "" -> parseInt s = Some (code_value (trim s)).
Proof.
  intros Hd Hn. destruct (trim_start_trim s) as [w [Hw Ha]].
  rewrite <- parseInt_trim_start, Hw.
  destruct (trim s) as [|c r] eqn:E; [contradiction|].
  apply parseInt_digits_app; [exact Hd | now apply ws_not_digit].
Qed.

End StringFacts.

Module ValidationFacts.

Import TimeUtils ValidationUtils RestNotions SpecNotions DurationFacts StringFacts.

Lemma digit_val_range (c : ascii) : is_digit c = true -> 0 <= digit_val c <= 9.
Proof.
  unfold is_digit, digit_val. intros H. apply andb_true_iff in H as [H1 H2].
  apply Nat.leb_le in H1. apply Nat.leb_le in H2. lia.
Qed.

Lemma digit_val_zero (c : ascii) : digit_val c = 0 -> c = "0"%char.
Proof.
  unfold digit_val. intros H. rewrite <- (ascii_nat_embedding c).
  replace (nat_of_ascii c) with 48%nat by lia. reflexivity.
Qed.

Lemma digits_value_bounds (s : string) (acc : Z) :
  all_digits s = true -> 0 <= acc ->
  acc * 10 ^ Z.of_nat (String.length s) <= digits_value_from s acc
  < (acc + 1) * 10 ^ Z.of_nat (String.length s).
Proof.
  revert acc. induction s as [|c r IH]; intros acc H Ha;
    cbn [digits_value_from all_digits String.length] in *; [simpl; lia|].
  apply andb_true_iff in H as [Hc Hr]. pose proof (digit_val_range c Hc).
  specialize (IH (acc * 10 + digit_val c) Hr ltac:(lia)).
  rewrite Nat2Z.inj_succ, Z.pow_succ_r by lia.
  pose proof (Z.pow_pos_nonneg 10 (Z.of_nat (String.length r)) ltac:(lia) ltac:(lia)).
  nia.
Qed.

Lemma six_digits_shape (s : string) :
  is_six_digits s = true ->
  exists c r, s = String c r /\ all_digits s = true /\ String.length r = 5%nat.
Proof.
  unfold is_six_digits. intros H. apply andb_true_iff in H as [Hl Hd].
  apply Nat.eqb_eq in Hl. destruct s as [|c r]; [discriminate|].
  exists c, r. rewrite all_digits_list. simpl in Hl. auto.
Qed.

(** A six-digit code is below [100000] exactly when it starts with [0]. *)
Lemma six_digit_value (c : ascii) (r : string) :
  is_six_digits (String c r) = true ->
  code_value (String c r) <= 999999 /\
  (code_value (String c r) < 100000 <-> c = "0"%char).
Proof.
  intros H. destruct (six_digits_shape _ H) as (c' & r' & E & Hd & Hl).
  injection E as <- <-. simpl in Hd. apply andb_true_iff in Hd as [Hc Hr].
  pose proof (digit_val_range c Hc).
  pose proof (digits_value_bounds r (digit_val c) Hr ltac:(lia)) as B.
  rewrite Hl in B. change (10 ^ Z.of_nat 5) with 100000 in B.
  unfold code_value. simpl. split; [nia|]. split.
  - intros L. apply digit_val_zero. nia.
  - intros ->. change (digit_val "0") with 0 in *. lia.
Qed.

Lemma parseInt_six (s : string) : is_six_digits s = true -> parseInt s = Some (code_value s).
Proof.
  intros H. destruct (six_digits_shape s H) as (c & r & -> & Hd & _).
  rewrite <- (append_nil_r (String c r)) at 1.
  apply parseInt_digits_app; [exact Hd | exact I].
Qed.

Lemma validatePincode_eq (p : string) :
  validatePincode p =
  if String.eqb (trim p) "" then PR_Required
  else if negb (is_six_digits (trim p)) then PR_NotSixDigits
  else if ((code_value (trim p) <? 100000) || (code_value (trim p) >? 999999))%bool
  then PR_OutOfRange else PR_Valid (trim p).
Proof.
  unfold validatePincode. destruct (String.eqb (trim p) "") eqn:E0; [reflexivity|].
  destruct (is_six_digits (trim p)) eqn:E1; [|reflexivity].
  simpl. now rewrite (parseInt_six _ E1).
Qed.

Lemma validatePincode_valid_iff (p n : string) :
  validatePincode p = PR_Valid n <-> n = trim p /\ valid_code n.
Proof.
  rewrite validatePincode_eq. unfold valid_code.
  destruct (String.eqb (trim p) "") eqn:E0.
  { apply String.eqb_eq in E0. rewrite E0. split; [discriminate|].
    intros [-> [H _]]. discriminate. }
  destruct (is_six_digits (trim p)) eqn:E1; simpl.
  2:{ split; [discriminate|]. intros [-> [H _]]. congruence. }
  destruct (code_value (trim p) <? 100000) eqn:E2; simpl.
  { apply Z.ltb_lt in E2. split; [discriminate|]. intros [-> [_ H]]. lia. }
  destruct (code_value (trim p) >? 999999) eqn:E3.
  { apply Z.gtb_lt in E3. split; [discriminate|]. intros [-> [_ H]]. lia. }
  apply Z.ltb_ge in E2. rewrite Z.gtb_ltb in E3. apply Z.ltb_ge in E3.
  split.
  - intros E. injection E as <-. auto.
  - intros [-> _]. reflexivity.
Qed.

Lemma valid_code_no_ws (n : string) : valid_code n -> all_of (fun c => negb (is_js_ws c)) n.
Proof.
  intros [H _]. unfold is_six_digits in H. apply andb_true_iff in H as [_ H].
  apply all_of_In. intros c Hc. rewrite forallb_forall in H.
  now rewrite (digit_not_ws c (H c Hc)).
Qed.

(** [validatePincode] accepts exactly the inputs whose trimmed form is a
    valid location code and returns that trimmed form; six digits starting
    with [0] are out of range; blank input is required; its result is
    accepted again unchanged. *)
Theorem validate_pincode_behaviour (p : string) :
  (forall n, validatePincode p = PR_Valid n <-> n = trim p /\ valid_code n) /\
  (validatePincode p = PR_OutOfRange <->
     exists r, trim p = String "0" r /\ is_six_digits (trim p) = true) /\
  (validatePincode p = PR_Required <-> trim p = "") /\
  (forall n, validatePincode p = PR_Valid n -> validatePincode n = PR_Valid n).
Proof.
  refine (conj (validatePincode_valid_iff p) (conj _ (conj _ _))).
  - rewrite validatePincode_eq.
    destruct (String.eqb (trim p) "") eqn:E0.
    { apply String.eqb_eq in E0. rewrite E0. split; [discriminate|].
      intros (r & H & _). discriminate. }
    destruct (is_six_digits (trim p)) eqn:E1; simpl.
    2:{ split; [discriminate|]. intros (r & _ & H). discriminate. }
    destruct (six_digits_shape _ E1) as (c & r & Ec & _).
    pose proof (six_digit_value c r) as V. rewrite <- Ec in V. specialize (V E1) as [V1 V2].
    split.
    + intros H. exists r. split; [|reflexivity]. rewrite Ec. f_equal.
      apply V2. destruct (code_value (trim p) <? 100000) eqn:E2; [now apply Z.ltb_lt|].
      simpl in H. destruct (code_value (trim p) >? 999999) eqn:E3; [|discriminate].
      apply Z.gtb_lt in E3. lia.
    + intros (r' & E & _). rewrite Ec in E. injection E as -> _.
      replace (code_value (trim p) <? 100000) with true; [reflexivity|].
      symmetry. apply Z.ltb_lt. now apply V2.
  - rewrite validatePincode_eq.
    destruct (String.eqb (trim p) "") eqn:E0.
    + apply String.eqb_eq in E0. tauto.
    + apply String.eqb_neq in E0. split; [|tauto].
      destruct (negb _); [discriminate|]. destruct (_ || _)%bool; discriminate.
  - intros n H. apply validatePincode_valid_iff in H as [-> Hv].
    apply validatePincode_valid_iff. split; [|exact Hv].
    symmetry. now apply no_ws_trim, valid_code_no_ws.
Qed.

Lemma validate_pincode_behaviour_witness :
  validatePincode " 110001 " = PR_Valid "110001" /\
  validatePincode "110001" = PR_Valid "110001".
Proof.
  split; [reflexivity|].
  destruct (validate_pincode_behaviour " 110001 ") as (_ & _ & _ & H).
  apply H. reflexivity.
Defined.

(** Pincodes accepted by [validatePincode] give the same estimate in their
    raw and normalised forms, and the estimate succeeds. *)
Theorem validated_pincodes_estimate (a b na nb : string)
    (Ha : validatePincode a = PR_Valid na) (Hb : validatePincode b = PR_Valid nb) :
  calculateEstimatedDuration a b = calculateEstimatedDuration na nb /\
  calculateEstimatedDuration na nb =
  inr (Qmax (inject_Z (Z.abs (code_value nb - code_value na) mod 24)) (1 # 2)).
Proof.
  apply validatePincode_valid_iff in Ha as [-> Va].
  apply validatePincode_valid_iff in Hb as [-> Vb].
  split; [|now apply estimate_valid].
  assert (P : forall s, valid_code (trim s) -> parseInt s = parseInt (trim s)).
  { intros s V. rewrite (parseInt_valid _ V).
    destruct (valid_code_shape _ V) as (c & r & E & Hd).
    apply parseInt_trimmed; [exact Hd | now rewrite E]. }
  unfold calculateEstimatedDuration. now rewrite (P a Va), (P b Vb).
Qed.

Lemma validated_pincodes_estimate_witness :
  calculateEstimatedDuration " 110001" "110008 " = inr 7%Q.
Proof.
  destruct (validated_pincodes_estimate " 110001" "110008 " "110001" "110008"
              eq_refl eq_refl) as [E1 E2].
  rewrite E1, E2. reflexivity.
Defined.

End ValidationFacts.

Module NormalizationFacts.

Import TimeUtils ValidationUtils ModelRest RestNotions StringFacts.

Lemma strip_unsafe_clean (s : string) : none_of is_unsafe_char (strip_unsafe s).
Proof.
  unfold none_of, all_of. induction s as [|c r IH]; simpl; [reflexivity|].
  destruct (is_unsafe_char c) eqn:E; simpl; [exact IH|]. now rewrite E, IH.
Qed.

Lemma strip_unsafe_length (s : string) : (String.length (strip_unsafe s) <= String.length s)%nat.
Proof.
  induction s as [|c r IH]; simpl; [lia|]. destruct (is_unsafe_char c); simpl; lia.
Qed.

Lemma strip_unsafe_id (s : string) : none_of is_unsafe_char s -> strip_unsafe s = s.
Proof.
  unfold none_of, all_of. induction s as [|c r IH]; simpl; [reflexivity|].
  intros H. apply andb_true_iff in H as [Hc Hr]. apply negb_true_iff in Hc.
  rewrite Hc. f_equal. exact (IH Hr).
Qed.

Lemma in_trim_start (c : ascii) (s : string) :
  In c (list_ascii_of_string (trim_start s)) -> In c (list_ascii_of_string s).
Proof.
  destruct (trim_start_split s) as [w [Hw _]]. intros H.
  rewrite Hw, list_ascii_app. apply in_or_app. now right.
Qed.

Lemma in_trim (c : ascii) (s : string) :
  In c (list_ascii_of_string (trim s)) -> In c (list_ascii_of_string s).
Proof.
  unfold trim. intros H. apply in_rev_string, in_trim_start, in_rev_string, in_trim_start in H.
  exact H.
Qed.

Lemma all_of_trim (f : ascii -> bool) (s : string) : all_of f s -> all_of f (trim s).
Proof. rewrite !all_of_In. intros H c Hc. now apply H, in_trim. Qed.

(** A query accepted by [validateSearchQuery] contains none of the removed
    characters and has at most 100 characters; a query without them is
    returned trimmed and otherwise unchanged. *)
Theorem search_query_sanitized :
  (forall q r, validateSearchQuery q = SQ_Valid r ->
     none_of is_unsafe_char r /\ (String.length r <= 100)%nat) /\
  (forall s, none_of is_unsafe_char s -> (1 <= String.length (trim s) <= 100)%nat ->
     validateSearchQuery (Some s) = SQ_Valid (trim s)).
Proof.
  split.
  - intros [q|] r H; [|discriminate]. unfold validateSearchQuery in H.
    destruct (String.eqb q ""); [discriminate|].
    destruct (Nat.ltb (String.length (trim q)) 1); [discriminate|].
    destruct (Nat.ltb 100 (String.length (trim q))) eqn:E; [discriminate|].
    injection H as <-. split; [apply strip_unsafe_clean|].
    apply Nat.ltb_ge in E. pose proof (strip_unsafe_length (trim q)). lia.
  - intros s Hs Hl. unfold validateSearchQuery.
    replace (String.eqb s "") with false.
    2:{ destruct s; [simpl in Hl; lia | reflexivity]. }
    replace (Nat.ltb (String.length (trim s)) 1) with false by (symmetry; apply Nat.ltb_ge; lia).
    replace (Nat.ltb 100 (String.length (trim s))) with false by (symmetry; apply Nat.ltb_ge; lia).
    f_equal. apply strip_unsafe_id. now apply all_of_trim.
Qed.

Lemma search_query_sanitized_witness :
  validateSearchQuery (Some " <b>bus</b> ") = SQ_Valid "bbus/b" /\
  none_of is_unsafe_char "bbus/b" /\
  validateSearchQuery (Some "  truck 10 ") = SQ_Valid "truck 10".
Proof.
  destruct search_query_sanitized as [H1 H2].
  assert (E : validateSearchQuery (Some " <b>bus</b> ") = SQ_Valid "bbus/b") by reflexivity.
  split; [exact E|]. split; [exact (proj1 (H1 _ _ E))|].
  apply (H2 "  truck 10 "); [reflexivity | simpl; lia].
Defined.

(** Collapsing runs of whitespace. *)

Lemma collapse_single_spaced (b : bool) (s : string) : single_spaced b (collapse_ws b s).
Proof.
  revert b. induction s as [|c r IH]; intros b; simpl; [exact I|].
  destruct (is_js_ws c) eqn:E.
  - destruct b; [apply IH|]. simpl. split; [split; reflexivity | apply IH].
  - simpl. rewrite E. split; [exact I | apply IH].
Qed.

Lemma collapse_single_spaced_id (b : bool) (s : string) :
  single_spaced b s -> collapse_ws b s = s.
Proof.
  revert b. induction s as [|c r IH]; intros b H; simpl in *; [reflexivity|].
  destruct H as [H1 H2]. destruct (is_js_ws c) eqn:E.
  - destruct H1 as [-> ->]. f_equal. now apply IH.
  - f_equal. now apply IH.
Qed.

Lemma collapse_snoc (b : bool) (x : string) (c : ascii) :
  is_js_ws c = false ->
  collapse_ws b (x ++ String c "") = collapse_ws b x ++ String c "".
Proof.
  intros Hc. revert b. induction x as [|d r IH]; intros b; simpl.
  - now rewrite Hc.
  - destruct (is_js_ws d); [destruct b; simpl|simpl]; now rewrite IH.
Qed.

Lemma collapse_ends_ok (s : string) : ends_ok s -> ends_ok (collapse_ws false s).
Proof.
  intros [H1 H2]. split.
  - destruct s as [|c r]; simpl in *; [exact I|]. now rewrite H1.
  - destruct (rev_string s) as [|c t] eqn:E.
    + assert (s = "") as -> by (rewrite <- (rev_string_involutive s), E; reflexivity).
      exact I.
    + simpl in H2. assert (Es : s = rev_string t ++ String c "").
      { rewrite <- (rev_string_involutive s), E. apply rev_string_cons. }
      rewrite Es, (collapse_snoc _ _ _ H2), rev_string_app. exact H2.
Qed.

(** The vehicle-name normalisation leaves no whitespace at either end,
    only single spaces inside, and is idempotent. *)
Theorem normalize_name_canonical (s : string) :
  ends_ok (normalizeName s) /\ single_spaced false (normalizeName s) /\
  normalizeName (normalizeName s) = normalizeName s.
Proof.
  assert (Hend : ends_ok (normalizeName s)) by (apply collapse_ends_ok, ends_ok_trim).
  assert (Hsp : single_spaced false (normalizeName s)) by apply collapse_single_spaced.
  refine (conj Hend (conj Hsp _)).
  unfold normalizeName at 1. rewrite (trim_ends_ok _ Hend).
  now apply collapse_single_spaced_id.
Qed.

Lemma to_lower_char_idem (c : ascii) : to_lower_char (to_lower_char c) = to_lower_char c.
Proof. destruct c as [[] [] [] [] [] [] [] []]; reflexivity. Qed.

Lemma toLowerCase_idem (s : string) : toLowerCase (toLowerCase s) = toLowerCase s.
Proof. induction s as [|c r IH]; simpl; [reflexivity|]. now rewrite to_lower_char_idem, IH. Qed.

Lemma toLowerCase_empty (s : string) : String.eqb (toLowerCase s) "" = String.eqb s "".
Proof. destruct s; reflexivity. Qed.

(** Every type [validateVehicleType] accepts or defaults to is a valid type
    with an entry in the factor table of the enhanced estimate; lower-casing
    the input beforehand changes nothing. *)
Theorem vehicle_type_has_factor :
  (forall t n, validateVehicleType t = VT_Valid n \/ validateVehicleType t = VT_Default n ->
     In n validTypes /\ exists f, vehicleFactors n = Some (PV_Number f)) /\
  (forall s, validateVehicleType (Some (toLowerCase s)) = validateVehicleType (Some s)).
Proof.
  split.
  - assert (F : forall n, In n validTypes -> exists f, vehicleFactors n = Some (PV_Number f)).
    { intros n H. simpl in H.
      repeat (destruct H as [<-|H]; [eexists; reflexivity|]). destruct H. }
    intros t n H. enough (In n validTypes) by auto.
    destruct t as [t|]; cbv beta iota delta [validateVehicleType] in H.
    2:{ destruct H as [H|H]; [discriminate | injection H as <-; simpl; tauto]. }
    destruct (String.eqb t "").
    { destruct H as [H|H]; [discriminate | injection H as <-; simpl; tauto]. }
    cbv zeta in H.
    destruct (existsb (String.eqb (trim (toLowerCase t))) validTypes) eqn:E;
      [|destruct H; discriminate].
    destruct H as [H|H]; [|discriminate]. injection H as <-.
    apply existsb_exists in E as (x & Hx & Ex). apply String.eqb_eq in Ex. now subst.
  - intros s. unfold validateVehicleType. now rewrite toLowerCase_empty, toLowerCase_idem.
Qed.

Lemma vehicle_type_has_factor_witness :
  validateVehicleType (Some " Van ") = VT_Valid "van" /\
  (In "van" validTypes /\ exists f, vehicleFactors "van" = Some (PV_Number f)).
Proof.
  split; [reflexivity|]. apply (proj1 vehicle_type_has_factor (Some " Van ")). left; reflexivity.
Defined.

(** Each stored status name validates to itself, every accepted value is a
    stored status name, and the check ignores letter case. *)
Theorem booking_status_roundtrip :
  (forall st, validateBookingStatus (Some (status_name st)) = BS_Valid (status_name st)) /\
  (forall s n, validateBookingStatus (Some s) = BS_Valid n -> exists st, n = status_name st) /\
  (forall s, validateBookingStatus (Some (toLowerCase s)) = validateBookingStatus (Some s)).
Proof.
  refine (conj _ (conj _ _)).
  - intros []; reflexivity.
  - intros s n H. unfold validateBookingStatus in H.
    destruct (String.eqb s ""); [discriminate|].
    cbv zeta in H.
    destruct (existsb (String.eqb (trim (toLowerCase s))) validStatuses) eqn:E;
      [|discriminate].
    injection H as <-.
    apply existsb_exists in E as (x & Hx & Ex). apply String.eqb_eq in Ex. rewrite Ex.
    simpl in Hx.
    destruct Hx as [<-|[<-|[<-|[<-|[<-|[]]]]]];
      [exists Pending | exists Confirmed | exists InProgress | exists Completed | exists Cancelled];
      reflexivity.
  - intros s. unfold validateBookingStatus. now rewrite toLowerCase_empty, toLowerCase_idem.
Qed.

Lemma booking_status_roundtrip_witness :
  validateBookingStatus (Some " In_Progress") = BS_Valid "in_progress" /\
  exists st, "in_progress" = status_name st.
Proof.
  split; [reflexivity|]. apply (proj1 (proj2 booking_status_roundtrip) " In_Progress").
  reflexivity.
Defined.

End NormalizationFacts.

Module ServiceFacts.

Import TimeUtils BookingModel BookingService SpecNotions Fixtures TimeUtilsRest ModelRest
  ServiceRest ValidationUtils RestNotions StatusFacts CreateFacts TimeFacts.

Lemma overlap_query_iff (vid : nat) (s e : Z) (excl : option nat) (b : Booking) :
  overlap_query vid s e excl b = true <->
  vehicleId b = vid /\ live b /\ startTime b < e /\ s < endTime b /\
  match excl with Some x => b_id b <> x | None => True end.
Proof.
  unfold overlap_query, live.
  rewrite !andb_true_iff, Nat.eqb_eq, live_query, Z.ltb_lt, Z.gtb_lt.
  destruct excl as [x|]; [rewrite negb_true_iff, Nat.eqb_neq|]; tauto.
Qed.

(** For a well-formed window, [checkBookingConflicts] returns, among the
    well-formed stored bookings, exactly the live ones of the vehicle that
    [timeRangesOverlap] reports as overlapping the window, except the
    excluded id; the store is unchanged. *)
Theorem check_conflicts_overlap (db : DB) (vid : nat) (s e : Z) (excl : option nat) :
  s < e ->
  exists cs, checkBookingConflicts vid s e excl db = (db, inr cs) /\
  forall b, startTime b < endTime b ->
    (In b cs <->
     In b (bookings db) /\ vehicleId b = vid /\ live b /\
     timeRangesOverlap (Some (startTime b)) (Some (endTime b)) (Some s) (Some e) = inr true /\
     match excl with Some x => b_id b <> x | None => True end).
Proof.
  intros He. eexists. split; [reflexivity|]. intros b Hb.
  rewrite filter_In, overlap_query_iff, (tro_valid_iff _ _ _ _ Hb He). tauto.
Qed.

Lemma check_conflicts_overlap_witness :
  exists cs,
    checkBookingConflicts 1 HOUR (3 * HOUR) None
      (store_with [mk_booking 2 Confirmed 0 (2 * HOUR)]) =
      (store_with [mk_booking 2 Confirmed 0 (2 * HOUR)], inr cs) /\
    In (mk_booking 2 Confirmed 0 (2 * HOUR)) cs.
Proof.
  destruct (check_conflicts_overlap (store_with [mk_booking 2 Confirmed 0 (2 * HOUR)])
              1 HOUR (3 * HOUR) None) as [cs [E H]]; [unfold HOUR; lia|].
  exists cs. split; [exact E|]. apply H; [unfold HOUR; simpl; lia|].
  refine (conj (or_introl eq_refl) (conj eq_refl (conj (conj _ _) (conj eq_refl I))));
    discriminate.
Defined.

(** The instance method [overlapsWithTimeRange] and the static overlap
    query agree on the bookings of a vehicle except on completed ones,
    which only the method counts. *)
Theorem overlap_method_vs_query (b : Booking) (s e : Z) :
  overlap_query (vehicleId b) s e None b = true <->
  overlapsWithTimeRange b s e = true /\ status b <> Completed.
Proof.
  rewrite overlap_query_iff. unfold overlapsWithTimeRange, live.
  rewrite !andb_true_iff, Z.ltb_lt, Z.gtb_lt, negb_true_iff.
  destruct (status b); simpl; intuition congruence.
Qed.

Lemma total_pages_eq (n l : Z) : 0 < l -> Qceiling (inject_Z n / inject_Z l) = - ((- n) / l).
Proof.
  intros Hl. destruct l as [|lp|lp]; try lia.
  unfold Qceiling, Qfloor, Qdiv, Qinv, inject_Z, Qmult, Qopp. simpl.
  now rewrite Z.mul_1_r.
Qed.

Lemma page_slice_nonempty {A} (p l : Z) (xs : list A) :
  1 <= p -> 1 <= l ->
  (page_slice p l xs <> [] <-> (p - 1) * l < Z.of_nat (length xs)).
Proof.
  intros Hp Hl. unfold page_slice.
  rewrite <- (not_iff_compat (length_zero_iff_nil _)), length_firstn, length_skipn.
  assert (0 <= (p - 1) * l) by nia.
  split; intros H'.
  - destruct (Z.to_nat l) eqn:E; [lia|]. lia.
  - lia.
Qed.

(** After [validatePagination] succeeds, the skip is [(page - 1) * limit],
    the page holds at most [limit] items, it is non-empty exactly when the
    page is at most [totalPages], [hasNextPage] holds exactly when the next
    page is non-empty, and [hasPreviousPage] exactly when the page is past
    the first. *)
Theorem pagination_consistent {A} (page limit : option (option Q)) (p l sk : Z)
    (matches : list A) :
  validatePagination page limit = PG_Valid p l sk ->
  sk = (p - 1) * l /\ 1 <= p /\ 1 <= l <= 100 /\
  (length (fst (paginate p l matches)) <= Z.to_nat l)%nat /\
  (fst (paginate p l matches) <> [] <-> p <= totalPages (snd (paginate p l matches))) /\
  (hasNextPage (snd (paginate p l matches)) = true <-> page_slice (p + 1) l matches <> []) /\
  (hasPreviousPage (snd (paginate p l matches)) = true <-> 1 < p).
Proof.
  intros H.
  assert (B : sk = (p - 1) * l /\ 1 <= p /\ 1 <= l <= 100).
  { unfold validatePagination in H.
    destruct (match page with None => Some 1%Q | Some p => p end) as [pq|]; [|discriminate].
    destruct (negb (Qle_bool 1 pq) || negb (is_integer pq))%bool eqn:Ep; [discriminate|].
    destruct (match limit with None => Some 10%Q | Some l => l end) as [lq|]; [|discriminate].
    destruct (negb (Qle_bool 1 lq) || negb (Qle_bool lq 100) || negb (is_integer lq))%bool
      eqn:El; [discriminate|].
    injection H as <- <- <-.
    apply orb_false_iff in Ep as [Ep _]. apply negb_false_iff, Qle_bool_iff in Ep.
    apply orb_false_iff in El as [El _]. apply orb_false_iff in El as [El1 El2].
    apply negb_false_iff, Qle_bool_iff in El1. apply negb_false_iff, Qle_bool_iff in El2.
    apply Qfloor_resp_le in Ep, El1, El2. change (Qfloor 1) with 1 in Ep, El1. change (Qfloor 100) with 100 in El2. lia. }
  destruct B as (Bs & Bp & Bl). refine (conj Bs (conj Bp (conj Bl _))).
  unfold paginate, pagination_info. cbn [fst snd totalPages hasNextPage hasPreviousPage].
  rewrite (total_pages_eq (Z.of_nat (length matches)) l ltac:(lia)).
  set (n := Z.of_nat (length matches)).
  pose proof (Z.div_mod (- n) l ltac:(lia)) as D.
  pose proof (Z.mod_pos_bound (- n) l ltac:(lia)) as R.
  set (q := (- n) / l) in *. set (r := (- n) mod l) in *.
  refine (conj _ (conj _ (conj _ _))).
  - unfold page_slice. rewrite length_firstn. lia.
  - rewrite (page_slice_nonempty p l matches Bp ltac:(lia)). fold n.
    destruct (Z_le_gt_dec (p + q) 0); split; intros; nia.
  - rewrite Z.ltb_lt, (page_slice_nonempty (p + 1) l matches ltac:(lia) ltac:(lia)). fold n.
    destruct (Z_le_gt_dec (p + q + 1) 0); split; intros; nia.
  - rewrite Z.gtb_lt. lia.
Qed.

Lemma pagination_consistent_witness :
  validatePagination (Some (Some 3%Q)) None = PG_Valid 3 10 20 /\
  (hasNextPage (snd (paginate 3 10 (seq 0 25))) = true <->
   page_slice (3 + 1) 10 (seq 0 25) <> []).
Proof.
  split; [reflexivity|].
  destruct (pagination_consistent (Some (Some 3%Q)) None 3 10 20 (seq 0 25) eq_refl)
    as (_ & _ & _ & _ & _ & H & _).
  exact H.
Defined.

Lemma booking_lookup_some (db : DB) (id : nat) (b : Booking) :
  booking_lookup db id = Some b -> In b (bookings db) /\ b_id b = id.
Proof.
  unfold booking_lookup. intros H. apply find_some in H as [H1 H2].
  now apply Nat.eqb_eq in H2.
Qed.

Lemma remove_first_booking_In (id : nat) (l : list Booking) :
  NoDup (map b_id l) ->
  forall x, In x (remove_first_booking id l) <-> In x l /\ b_id x <> id.
Proof.
  induction l as [|b bs IH]; intros Hnd x; simpl; [tauto|].
  inversion Hnd as [|? ? Hnotin Hnd']; subst.
  destruct (Nat.eqb (b_id b) id) eqn:E.
  - apply Nat.eqb_eq in E. split.
    + intros Hx. split; [now right|]. intros Ex. apply Hnotin.
      rewrite E, <- Ex. now apply in_map.
    + intros [[<-|Hx] Hne]; [contradiction|exact Hx].
  - apply Nat.eqb_neq in E. simpl. rewrite (IH Hnd' x). split.
    + intros [<-|[Hx Hne]]; auto.
    + intros [[<-|Hx] Hne]; auto.
Qed.

Lemma deletable_iff (s : Status) :
  existsb (status_eqb s) [Completed; Cancelled] = true <-> ~ (s <> Cancelled /\ s <> Completed).
Proof. destruct s; simpl; intuition congruence. Qed.

Lemma remove_first_lookup (db : DB) (id : nat) :
  NoDup (map b_id (bookings db)) ->
  booking_lookup {| vehicles := vehicles db; bookings := remove_first_booking id (bookings db);
                    next_id := next_id db |} id = None /\
  forall x, In x (remove_first_booking id (bookings db)) <-> In x (bookings db) /\ b_id x <> id.
Proof.
  intros Hnd.
  assert (Hin : forall x, In x (remove_first_booking id (bookings db)) <->
                          In x (bookings db) /\ b_id x <> id)
    by now apply remove_first_booking_In.
  split; [|exact Hin].
  unfold booking_lookup. cbn [bookings].
  destruct (find _ _) as [y|] eqn:Hf; [|reflexivity].
  apply find_some in Hf as [Hy Ey]. apply Nat.eqb_eq in Ey. apply Hin in Hy. tauto.
Qed.

Lemma delete_finish_found (db : DB) (id : nat) (now : Z) (b : Booking) :
  booking_lookup db id = Some b ->
  delete_finish id now db =
  ({| vehicles := vehicles db; bookings := remove_first_booking id (bookings db);
      next_id := next_id db |},
   inr {| deleted_id := id; deleted_status := status b; deletedAt := now |}).
Proof.
  intros Hb. unfold delete_finish, findByIdAndDelete. rewrite Hb.
  now rewrite (proj2 (booking_lookup_some _ _ _ Hb)).
Qed.

(** Run alone, [deleteBooking] refuses a missing or live booking and
    leaves the store alone; otherwise it removes the first booking with
    that id and reports its id and status; with unique ids the booking is
    gone afterwards and every other booking stays. When two deletes of the
    same completed or cancelled booking both pass their [findById] check
    before either deletes, the first succeeds and the second reports a
    failed delete and leaves the store alone. *)
Theorem delete_booking_outcomes (db : DB) (id : nat) (now now' : Z) :
  (booking_lookup db id = None -> deleteBooking id now db = (db, inl D_NotFound)) /\
  (forall b, booking_lookup db id = Some b -> live b ->
     deleteBooking id now db = (db, inl D_NotDeletable)) /\
  (forall b, booking_lookup db id = Some b -> ~ live b ->
     deleteBooking id now db =
     ({| vehicles := vehicles db; bookings := remove_first_booking id (bookings db);
         next_id := next_id db |},
      inr {| deleted_id := id; deleted_status := status b; deletedAt := now |})) /\
  (forall db' e, deleteBooking id now db = (db', inl e) -> db' = db) /\
  (NoDup (map b_id (bookings db)) -> forall db' r, deleteBooking id now db = (db', inr r) ->
     booking_lookup db' id = None /\
     forall x, In x (bookings db') <-> In x (bookings db) /\ b_id x <> id) /\
  (NoDup (map b_id (bookings db)) -> forall b, booking_lookup db id = Some b -> ~ live b ->
     delete_check id db = None /\
     exists db1 r, delete_finish id now db = (db1, inr r) /\
                   delete_finish id now' db1 = (db1, inl D_DeleteFailed)).
Proof.
  assert (Ck : forall b, booking_lookup db id = Some b -> ~ live b -> delete_check id db = None).
  { intros b Hb Hl. unfold delete_check. rewrite Hb.
    replace (existsb (status_eqb (status b)) _) with true by (symmetry; now apply deletable_iff).
    reflexivity. }
  unfold deleteBooking.
  refine (conj _ (conj _ (conj _ (conj _ (conj _ _))))).
  - intros H. unfold delete_check. now rewrite H.
  - intros b Hb Hl. unfold delete_check, live in *. rewrite Hb.
    replace (existsb _ _) with false; [reflexivity|].
    symmetry. apply not_true_iff_false. rewrite deletable_iff. tauto.
  - intros b Hb Hl. rewrite (Ck b Hb Hl). now apply delete_finish_found.
  - intros db' e. destruct (delete_check id db) as [e'|] eqn:C.
    + intros H. now injection H as <- _.
    + unfold delete_check in C. destruct (booking_lookup db id) as [b|] eqn:Hb;
        [|discriminate].
      rewrite (delete_finish_found _ _ _ _ Hb). discriminate.
  - intros Hnd db' r. destruct (delete_check id db) as [e'|] eqn:C; [discriminate|].
    unfold delete_check in C. destruct (booking_lookup db id) as [b|] eqn:Hb;
      [|discriminate].
    rewrite (delete_finish_found _ _ _ _ Hb). intros H. injection H as <- _.
    exact (remove_first_lookup db id Hnd).
  - intros Hnd b Hb Hl. split; [exact (Ck b Hb Hl)|].
    eexists; eexists; split; [exact (delete_finish_found _ _ _ _ Hb)|].
    unfold delete_finish, findByIdAndDelete.
    now rewrite (proj1 (remove_first_lookup db id Hnd)).
Qed.

Lemma delete_booking_outcomes_witness :
  deleteBooking 3 0 (store_with [mk_booking 2 Cancelled 0 HOUR; mk_booking 3 Confirmed 0 HOUR])
    = (store_with [mk_booking 2 Cancelled 0 HOUR; mk_booking 3 Confirmed 0 HOUR],
       inl D_NotDeletable) /\
  deleteBooking 2 0 (store_with [mk_booking 2 Cancelled 0 HOUR; mk_booking 3 Confirmed 0 HOUR])
    = (store_with [mk_booking 3 Confirmed 0 HOUR],
       inr {| deleted_id := 2; deleted_status := Cancelled; deletedAt := 0 |}) /\
  delete_finish 2 1 (store_with [mk_booking 3 Confirmed 0 HOUR])
    = (store_with [mk_booking 3 Confirmed 0 HOUR], inl D_DeleteFailed).
Proof.
  destruct (delete_booking_outcomes
              (store_with [mk_booking 2 Cancelled 0 HOUR; mk_booking 3 Confirmed 0 HOUR]) 3 0 1)
    as (_ & H2 & _).
  destruct (delete_booking_outcomes
              (store_with [mk_booking 2 Cancelled 0 HOUR; mk_booking 3 Confirmed 0 HOUR]) 2 0 1)
    as (_ & _ & H3 & _ & _ & H6).
  assert (Nl : ~ live (mk_booking 2 Cancelled 0 HOUR)) by (intros [A _]; now apply A).
  split; [|split].
  - apply (H2 (mk_booking 3 Confirmed 0 HOUR)); [reflexivity | split; discriminate].
  - rewrite (H3 (mk_booking 2 Cancelled 0 HOUR)); [reflexivity | reflexivity | exact Nl].
  - assert (Hnd : NoDup (map b_id (bookings
              (store_with [mk_booking 2 Cancelled 0 HOUR; mk_booking 3 Confirmed 0 HOUR]))))
      by (simpl; repeat constructor; simpl; intuition congruence).
    destruct (H6 Hnd (mk_booking 2 Cancelled 0 HOUR) eq_refl Nl)
      as (_ & db1 & r & F1 & F2).
    vm_compute in F1. injection F1 as <- _. exact F2.
Defined.

Lemma find_update_first_same (vid : nat) (f : Vehicle -> Vehicle) (l : list Vehicle) :
  (forall v, v_id (f v) = v_id v) ->
  find (fun v => Nat.eqb (v_id v) vid) (update_first_vehicle vid f l) =
  option_map f (find (fun v => Nat.eqb (v_id v) vid) l).
Proof.
  intros Hf. induction l as [|v vs IH]; simpl; [reflexivity|].
  destruct (Nat.eqb (v_id v) vid) eqn:E; simpl.
  - now rewrite Hf, E.
  - now rewrite E.
Qed.

Lemma find_update_first_other (vid i : nat) (f : Vehicle -> Vehicle) (l : list Vehicle) :
  (forall v, v_id (f v) = v_id v) -> i <> vid ->
  find (fun v => Nat.eqb (v_id v) i) (update_first_vehicle vid f l) =
  find (fun v => Nat.eqb (v_id v) i) l.
Proof.
  intros Hf Hi. induction l as [|v vs IH]; simpl; [reflexivity|].
  destruct (Nat.eqb (v_id v) vid) eqn:E; simpl.
  - apply Nat.eqb_eq in E. rewrite Hf, E.
    replace (Nat.eqb vid i) with false by (symmetry; apply Nat.eqb_neq; lia).
    reflexivity.
  - now rewrite IH.
Qed.

Lemma active_booking_query_iff (vid : nat) (now : Z) (b : Booking) :
  active_booking_query vid now b = true <->
  vehicleId b = vid /\ live b /\ endTime b > now.
Proof.
  unfold active_booking_query, live.
  rewrite !andb_true_iff, Nat.eqb_eq, Z.gtb_lt, existsb_status_In.
  destruct (status b); simpl; intuition (try congruence; try lia).
Qed.

Lemma length_filter_pos {A} (f : A -> bool) (l : list A) :
  Nat.ltb 0 (length (filter f l)) = true <-> exists x, In x l /\ f x = true.
Proof.
  rewrite Nat.ltb_lt. split.
  - destruct (filter f l) as [|x xs] eqn:E; simpl; [lia|]. intros _.
    exists x. apply filter_In. rewrite E. now left.
  - intros (x & Hx & Fx). destruct (filter f l) as [|y ys] eqn:E; simpl; [|lia].
    assert (In x (filter f l)) by (now apply filter_In). rewrite E in H. destruct H.
Qed.

(** [deleteVehicle] refuses a missing vehicle, and refuses exactly when a
    live booking of the vehicle ends after [now]; on success it only
    deactivates that vehicle, and every later [createBooking] for it fails
    with [VehicleInactive]. *)
Theorem delete_vehicle_outcomes (db : DB) (vid : nat) (now : Z) :
  (vehicle_lookup db vid = None -> deleteVehicle vid now db = (db, inl VD_NotFound)) /\
  (vehicle_lookup db vid <> None ->
     (deleteVehicle vid now db = (db, inl VD_ActiveBookings) <->
      exists b, In b (bookings db) /\ vehicleId b = vid /\ live b /\ endTime b > now)) /\
  (forall db' u, deleteVehicle vid now db = (db', inr u) ->
     bookings db' = bookings db /\ next_id db' = next_id db /\
     (exists v, vehicle_lookup db vid = Some v /\ vehicle_lookup db' vid = Some (deactivate v)) /\
     (forall i, i <> vid -> vehicle_lookup db' i = vehicle_lookup db i) /\
     (forall bd t, in_vehicleId bd = vid -> createBooking bd t db' = (db', inl E_VehicleInactive))).
Proof.
  unfold deleteVehicle. refine (conj _ (conj _ _)).
  - intros ->. reflexivity.
  - intros Hv. destruct (vehicle_lookup db vid) as [v|]; [|contradiction].
    destruct (Nat.ltb 0 _) eqn:E.
    + split; [intros _|reflexivity].
      apply length_filter_pos in E as (b & Hb & Fb).
      apply active_booking_query_iff in Fb. eauto.
    + split; [discriminate|]. intros (b & Hb & Fb). exfalso.
      apply not_true_iff_false in E. apply E, length_filter_pos.
      exists b. split; [exact Hb|]. now apply active_booking_query_iff.
  - intros db' u. destruct (vehicle_lookup db vid) as [v|] eqn:Hv; [|discriminate].
    destruct (Nat.ltb 0 _); [discriminate|]. intros H. injection H as <- _.
    assert (Hd : vehicle_lookup
                   {| vehicles := update_first_vehicle vid deactivate (vehicles db);
                      bookings := bookings db; next_id := next_id db |} vid
                 = Some (deactivate v)).
    { unfold vehicle_lookup. cbn [vehicles].
      rewrite find_update_first_same by reflexivity.
      unfold vehicle_lookup in Hv. now rewrite Hv. }
    refine (conj eq_refl (conj eq_refl (conj _ (conj _ _)))).
    + exists v. split; [reflexivity|exact Hd].
    + intros i Hi. unfold vehicle_lookup. cbn [vehicles].
      now apply find_update_first_other.
    + intros bd t Hbd. rewrite createBooking_unfold, create_check_eq, Hbd, Hd.
      reflexivity.
Qed.

Lemma delete_vehicle_outcomes_witness :
  deleteVehicle 1 0 (store_with []) =
    ({| vehicles := [deactivate truck1]; bookings := []; next_id := 10 |}, inr tt) /\
  createBooking (request HOUR) 0 {| vehicles := [deactivate truck1]; bookings := []; next_id := 10 |}
    = ({| vehicles := [deactivate truck1]; bookings := []; next_id := 10 |},
       inl E_VehicleInactive).
Proof.
  assert (E : deleteVehicle 1 0 (store_with []) =
    ({| vehicles := [deactivate truck1]; bookings := []; next_id := 10 |}, inr tt))
    by reflexivity.
  split; [exact E|].
  destruct (delete_vehicle_outcomes (store_with []) 1 0) as (_ & _ & H).
  destruct (H _ _ E) as (_ & _ & _ & _ & C). now apply C.
Defined.

(** Starting a confirmed booking at [t1] and completing it at [t2]
    succeeds and stores a completed booking. It keeps an actual start or end
    time the booking already had and sets the missing ones to [t1] and [t2];
    its [actualDurationHours] is the difference in hours, rounded to two
    decimals, so [(t2 - t1)] when neither time was set. *)
Theorem start_then_complete_duration (db : DB) (id : nat) (cb : Booking) (t1 t2 : Z)
    (Hl : booking_lookup db id = Some cb) (Hs : status cb = Confirmed) :
  let s0 := match actualStartTime cb with Some a => a | None => t1 end in
  let e0 := match actualEndTime cb with Some a => a | None => t2 end in
  exists db1 b1 db2 b2,
    updateBookingStatus id InProgress None t1 db = (db1, inr b1) /\
    updateBookingStatus id Completed None t2 db1 = (db2, inr b2) /\
    booking_lookup db2 id = Some b2 /\ status b2 = Completed /\
    actualStartTime b2 = Some s0 /\ actualEndTime b2 = Some e0 /\
    actualDurationHours b2 = Some (round2 (inject_Z (e0 - s0) / inject_Z (1000 * 60 * 60))).
Proof.
  intros s0 e0.
  set (u1 := {| u_status := InProgress; u_notes := None;
                u_actualStartTime := if is_none (actualStartTime cb) then Some t1 else None;
                u_actualEndTime := None |}).
  set (db1 := {| vehicles := vehicles db;
                 bookings := map (fun x => if Nat.eqb (b_id x) id then apply_update u1 x else x)
                                 (bookings db);
                 next_id := next_id db |}).
  assert (U1 : updateBookingStatus id InProgress None t1 db = (db1, inr (apply_update u1 cb))).
  { rewrite (updateBookingStatus_found _ _ _ _ _ _ Hl), Hs.
    unfold catch_app, bind, findByIdAndUpdate. simpl. now rewrite Hl. }
  assert (L1 : booking_lookup db1 id = Some (apply_update u1 cb)).
  { unfold booking_lookup. simpl. rewrite find_map_update by reflexivity.
    unfold booking_lookup in Hl. now rewrite Hl. }
  set (b1 := apply_update u1 cb) in *.
  set (u2 := {| u_status := Completed; u_notes := None;
                u_actualStartTime := None;
                u_actualEndTime := if is_none (actualEndTime cb) then Some t2 else None |}).
  set (db2 := {| vehicles := vehicles db1;
                 bookings := map (fun x => if Nat.eqb (b_id x) id then apply_update u2 x else x)
                                 (bookings db1);
                 next_id := next_id db1 |}).
  assert (U2 : updateBookingStatus id Completed None t2 db1 = (db2, inr (apply_update u2 b1))).
  { rewrite (updateBookingStatus_found _ _ _ _ _ _ L1).
    unfold b1 at 1 2 3. simpl.
    unfold catch_app, bind, findByIdAndUpdate. simpl. now rewrite L1. }
  assert (L2 : booking_lookup db2 id = Some (apply_update u2 b1)).
  { unfold booking_lookup. unfold db2 at 1. cbn [bookings].
    rewrite find_map_update by reflexivity.
    unfold booking_lookup in L1. now rewrite L1. }
  assert (S2 : actualStartTime (apply_update u2 b1) = Some s0).
  { unfold s0, b1, u2, u1. simpl. now destruct (actualStartTime cb). }
  assert (E2 : actualEndTime (apply_update u2 b1) = Some e0).
  { unfold e0, b1, u2, u1. simpl. now destruct (actualEndTime cb). }
  exists db1, b1, db2, (apply_update u2 b1).
  refine (conj U1 (conj U2 (conj L2 (conj eq_refl (conj S2 (conj E2 _)))))).
  unfold actualDurationHours. now rewrite S2, E2.
Qed.

Lemma start_then_complete_duration_witness :
  exists db1 b1 db2 b2,
    updateBookingStatus 2 InProgress None (10 * HOUR)
      (store_with [mk_booking 2 Confirmed (10 * HOUR) (12 * HOUR)]) = (db1, inr b1) /\
    updateBookingStatus 2 Completed None (10 * HOUR + 5400000) db1 = (db2, inr b2) /\
    booking_lookup db2 2 = Some b2 /\ status b2 = Completed /\
    actualDurationHours b2 = Some (150 # 100)%Q.
Proof.
  destruct (start_then_complete_duration (store_with [mk_booking 2 Confirmed (10 * HOUR) (12 * HOUR)])
              2 (mk_booking 2 Confirmed (10 * HOUR) (12 * HOUR)) (10 * HOUR) (10 * HOUR + 5400000)
              eq_refl eq_refl)
    as (db1 & b1 & db2 & b2 & U1 & U2 & L & S & _ & _ & D).
  exists db1, b1, db2, b2. refine (conj U1 (conj U2 (conj L (conj S _)))).
  rewrite D. reflexivity.
Defined.

(** Sorting by start time. *)

Lemma insert_by_start_In (x y : Booking) (l : list Booking) :
  In y (insert_by_start x l) <-> y = x \/ In y l.
Proof.
  induction l as [|z zs IH]; simpl; [intuition congruence|].
  destruct (startTime x <? startTime z); simpl; [intuition congruence|].
  rewrite IH. intuition congruence.
Qed.

Lemma sort_by_start_In (y : Booking) (l : list Booking) :
  In y (sort_by_start l) <-> In y l.
Proof.
  unfold sort_by_start.
  assert (G : forall acc, In y (fold_left (fun acc x => insert_by_start x acc) l acc) <->
                          In y acc \/ In y l).
  { induction l as [|x l IH]; intros acc; simpl; [tauto|].
    rewrite IH, insert_by_start_In. intuition congruence. }
  rewrite G. simpl. tauto.
Qed.

Lemma insert_by_start_Sorted (x : Booking) (l : list Booking) :
  Sorted start_le l -> Sorted start_le (insert_by_start x l).
Proof.
  unfold start_le. induction l as [|y ys IH]; intros Hs; simpl.
  - repeat constructor.
  - destruct (startTime x <? startTime y) eqn:E.
    + apply Z.ltb_lt in E. constructor; [exact Hs|constructor; lia].
    + apply Z.ltb_ge in E. apply Sorted_inv in Hs as [Hs Hh].
      constructor; [now apply IH|].
      destruct ys as [|z zs]; simpl; [constructor; lia|].
      destruct (startTime x <? startTime z); constructor; [lia|].
      now inversion Hh.
Qed.

Lemma sort_by_start_Sorted (l : list Booking) : Sorted start_le (sort_by_start l).
Proof.
  unfold sort_by_start.
  assert (G : forall acc, Sorted start_le acc ->
              Sorted start_le (fold_left (fun acc x => insert_by_start x acc) l acc)).
  { induction l as [|x l IH]; intros acc Ha; simpl; [exact Ha|].
    apply IH. now apply insert_by_start_Sorted. }
  apply G. constructor.
Qed.

Lemma start_le_trans : Relations_1.Transitive start_le.
Proof. unfold start_le. intros a b c; lia. Qed.

Lemma Sorted_app_l (a b : list Booking) : Sorted start_le (a ++ b) -> Sorted start_le a.
Proof.
  induction a as [|x xs IH]; simpl; intros H; [constructor|].
  apply Sorted_inv in H as [H1 H2]. constructor; [now apply IH|].
  destruct xs; simpl in *; constructor. now inversion H2.
Qed.

Lemma StronglySorted_app (a b : list Booking) :
  StronglySorted start_le (a ++ b) -> forall x y, In x a -> In y b -> start_le x y.
Proof.
  induction a as [|z zs IH]; simpl; intros H x y Hx Hy; [destruct Hx|].
  apply StronglySorted_inv in H as [H1 H2]. destruct Hx as [<-|Hx].
  - rewrite Forall_forall in H2. apply H2, in_or_app. now right.
  - now apply IH.
Qed.

Lemma getUpcomingBookings_eq (lim : nat) (now : Z) (db : DB) :
  getUpcomingBookings lim now db =
  (db, inr (mongo_limit lim (sort_by_start (filter (upcoming_query now) (bookings db))))).
Proof. reflexivity. Qed.

Lemma upcoming_query_iff (now : Z) (b : Booking) :
  upcoming_query now b = true <->
  (status b = Confirmed \/ status b = Pending) /\ now <= startTime b <= now + 86400000.
Proof.
  unfold upcoming_query. rewrite !andb_true_iff, !Z.leb_le, existsb_status_In. simpl.
  intuition congruence.
Qed.

(** [getUpcomingBookings] returns stored pending or confirmed bookings that
    start within the next 24 hours, sorted by start time, at most [limit] of
    them, and every matching booking it leaves out starts no earlier than
    those it returns. *)
Theorem upcoming_bookings_window (db : DB) (lim : nat) (now : Z) :
  exists r, getUpcomingBookings lim now db = (db, inr r) /\
  Sorted (fun a b => startTime a <= startTime b) r /\
  (forall b, In b r -> In b (bookings db) /\ (status b = Confirmed \/ status b = Pending) /\
             now <= startTime b <= now + 86400000) /\
  (lim <> 0%nat -> (length r <= lim)%nat) /\
  (forall b, In b (bookings db) -> upcoming_query now b = true -> ~ In b r ->
     forall a, In a r -> startTime a <= startTime b).
Proof.
  rewrite getUpcomingBookings_eq. eexists. split; [reflexivity|].
  set (s := sort_by_start (filter (upcoming_query now) (bookings db))).
  assert (Ss : Sorted start_le s) by apply sort_by_start_Sorted.
  assert (Is : forall b, In b s <-> In b (bookings db) /\ upcoming_query now b = true)
    by (intros b; unfold s; now rewrite sort_by_start_In, filter_In).
  assert (Split : s = (mongo_limit lim s ++ match lim with O => [] | _ => skipn lim s end)%list).
  { unfold mongo_limit. destruct lim; [now rewrite app_nil_r | symmetry; apply firstn_skipn]. }
  refine (conj _ (conj _ (conj _ _))).
  - apply (Sorted_app_l _ (match lim with O => [] | _ => skipn lim s end)).
    rewrite <- Split. exact Ss.
  - intros b Hb. assert (In b s) as Hs.
    { rewrite Split. apply in_or_app. now left. }
    apply Is in Hs as [H1 H2]. apply upcoming_query_iff in H2. tauto.
  - intros Hl. destruct lim as [|n]; [contradiction|]. unfold mongo_limit. apply firstn_le_length.
  - intros b Hb Hq Hn a Ha.
    assert (Hbs : In b s) by (now apply Is).
    rewrite Split in Hbs. apply in_app_or in Hbs as [Hbs|Hbs]; [contradiction|].
    apply (StronglySorted_app (mongo_limit lim s) (match lim with O => [] | _ => skipn lim s end));
      [|exact Ha|exact Hbs].
    rewrite <- Split. apply Sorted_StronglySorted; [exact start_le_trans | exact Ss].
Qed.

Lemma upcoming_bookings_window_witness :
  getUpcomingBookings 1 0
    (store_with [mk_booking 2 Confirmed (5 * HOUR) (6 * HOUR);
                 mk_booking 3 Pending (2 * HOUR) (3 * HOUR)]) =
    (store_with [mk_booking 2 Confirmed (5 * HOUR) (6 * HOUR);
                 mk_booking 3 Pending (2 * HOUR) (3 * HOUR)],
     inr [mk_booking 3 Pending (2 * HOUR) (3 * HOUR)]) /\
  (length [mk_booking 3 Pending (2 * HOUR) (3 * HOUR)] <= 1)%nat.
Proof.
  destruct (upcoming_bookings_window
              (store_with [mk_booking 2 Confirmed (5 * HOUR) (6 * HOUR);
                           mk_booking 3 Pending (2 * HOUR) (3 * HOUR)]) 1 0)
    as (r & E & _ & _ & L & _).
  assert (Er : r = [mk_booking 3 Pending (2 * HOUR) (3 * HOUR)]).
  { vm_compute in E. injection E as <-. reflexivity. }
  subst r. split; [exact E|]. apply L. discriminate.
Defined.

(** The upcoming-bookings controller returns at most 100 bookings, and at
    most 50 when no limit is given. *)
Theorem upcoming_controller_limit (lim : option string) (now : Z) (db : DB) :
  (forall r, snd (getUpcomingBookings_ctrl lim now db) = inr (inr r) -> (length r <= 100)%nat) /\
  (lim = None -> exists r, snd (getUpcomingBookings_ctrl lim now db) = inr (inr r) /\
                           (length r <= 50)%nat).
Proof.
  assert (Len : forall n, 1 <= n <= 100 ->
            (length (mongo_limit (Z.to_nat n)
                       (sort_by_start (filter (upcoming_query now) (bookings db))))
             <= Z.to_nat n)%nat).
  { intros n Hn. destruct (Z.to_nat n) eqn:E; [lia|]. apply firstn_le_length. }
  unfold getUpcomingBookings_ctrl. split.
  - intros r. destruct (parseInt _) as [n|]; [|discriminate].
    destruct ((n <? 1) || (n >? 100))%bool eqn:E; [discriminate|].
    apply orb_false_iff in E as [E1 E2]. apply Z.ltb_ge in E1.
    rewrite Z.gtb_ltb in E2. apply Z.ltb_ge in E2.
    unfold bind, ret. rewrite getUpcomingBookings_eq. simpl. intros H. injection H as <-.
    pose proof (Len n ltac:(lia)). lia.
  - intros ->. cbn [parseInt]. eexists. split; [reflexivity|].
    apply (Len 50). lia.
Qed.

Lemma upcoming_controller_limit_witness :
  exists r, snd (getUpcomingBookings_ctrl None 0 (store_with [])) = inr (inr r) /\
            (length r <= 50)%nat.
Proof. exact (proj2 (upcoming_controller_limit None 0 (store_with [])) eq_refl). Defined.

(** Cancelling or completing a booking takes it out of every later
    conflict query. *)

Lemma updateBookingStatus_success (db db' : DB) (id : nat) (st : Status)
    (n : option string) (now : Z) (r : Booking) :
  updateBookingStatus id st n now db = (db', inr r) ->
  exists u, u_status u = st /\
    db' = {| vehicles := vehicles db;
             bookings := map (fun x => if Nat.eqb (b_id x) id then apply_update u x else x)
                             (bookings db);
             next_id := next_id db |}.
Proof.
  intros H. destruct (booking_lookup db id) as [cb|] eqn:Hl.
  2:{ unfold updateBookingStatus, catch_app, bind, Booking_findById in H.
      cbv beta in H. rewrite Hl in H. discriminate. }
  rewrite (updateBookingStatus_found db id cb st n now Hl) in H.
  unfold catch_app in H.
  destruct (negb (existsb (status_eqb st) (validTransitions (status cb)))); [discriminate|].
  destruct (status_eqb st Cancelled && negb (canBeCancelled cb now))%bool; [discriminate|].
  unfold bind, findByIdAndUpdate in H.
  match type of H with
  | context [if ?c then _ else _] => destruct c; [discriminate|]
  end.
  rewrite Hl in H. injection H as <- _. eexists. split; [|reflexivity]. reflexivity.
Qed.

Lemma cancelBooking_success (db db' : DB) (id : nat) (reason : string) (now : Z) (r : Booking) :
  cancelBooking id reason now db = (db', inr r) ->
  updateBookingStatus id Cancelled (Some reason) now db = (db', inr r).
Proof.
  unfold cancelBooking, catch_app at 1, bind at 1, Booking_findById. cbv beta.
  destruct (booking_lookup db id) as [b|]; [|discriminate].
  destruct (negb (canBeCancelled b now)); [discriminate|].
  destruct (updateBookingStatus id Cancelled (Some reason) now db) as [d [e|x]];
    [discriminate|tauto].
Qed.

Lemma filter_terminal (u : UpdateFields) (id vid : nat) (s e : Z) (excl : option nat)
    (l : list Booking) :
  (u_status u = Cancelled \/ u_status u = Completed) ->
  filter (overlap_query vid s e excl)
         (map (fun x => if Nat.eqb (b_id x) id then apply_update u x else x) l) =
  filter (fun b => overlap_query vid s e excl b && negb (Nat.eqb (b_id b) id))%bool l.
Proof.
  intros Hu. induction l as [|x xs IH]; simpl; [reflexivity|].
  destruct (Nat.eqb (b_id x) id) eqn:E; simpl.
  - rewrite andb_false_r.
    replace (overlap_query vid s e excl (apply_update u x)) with false; [exact IH|].
    symmetry. apply not_true_iff_false. rewrite overlap_query_iff. unfold live. simpl.
    intros (_ & [A B] & _). destruct Hu; contradiction.
  - rewrite andb_true_r. destruct (overlap_query vid s e excl x); [f_equal|]; exact IH.
Qed.

(** After a successful update to [cancelled] or [completed], or a
    successful [cancelBooking], every conflict query sees the store it saw
    before minus the bookings with that id. *)
Theorem terminal_status_frees_slot (db : DB) (id : nat) :
  (forall st n now db' r, st = Cancelled \/ st = Completed ->
     updateBookingStatus id st n now db = (db', inr r) ->
     vehicles db' = vehicles db /\
     forall vid s e excl,
       filter (overlap_query vid s e excl) (bookings db') =
       filter (fun b => overlap_query vid s e excl b && negb (Nat.eqb (b_id b) id))%bool
              (bookings db)) /\
  (forall reason now db' r, cancelBooking id reason now db = (db', inr r) ->
     vehicles db' = vehicles db /\
     forall vid s e excl,
       filter (overlap_query vid s e excl) (bookings db') =
       filter (fun b => overlap_query vid s e excl b && negb (Nat.eqb (b_id b) id))%bool
              (bookings db)).
Proof.
  assert (G : forall st n now db' r, st = Cancelled \/ st = Completed ->
     updateBookingStatus id st n now db = (db', inr r) ->
     vehicles db' = vehicles db /\
     forall vid s e excl,
       filter (overlap_query vid s e excl) (bookings db') =
       filter (fun b => overlap_query vid s e excl b && negb (Nat.eqb (b_id b) id))%bool
              (bookings db)).
  { intros st n now db' r Hst H.
    destruct (updateBookingStatus_success _ _ _ _ _ _ _ H) as (u & Hu & ->).
    split; [reflexivity|]. intros vid s e excl. apply filter_terminal. now rewrite Hu. }
  split; [exact G|].
  intros reason now db' r H. apply (G Cancelled (Some reason) now db' r (or_introl eq_refl)).
  now apply cancelBooking_success.
Qed.

Lemma terminal_status_frees_slot_witness :
  exists db' r,
    cancelBooking 2 "plans changed" 0 (store_with [mk_booking 2 Confirmed (3 * HOUR) (5 * HOUR)])
      = (db', inr r) /\
    filter (overlap_query 1 (3 * HOUR) (4 * HOUR) None) (bookings db') = [].
Proof.
  destruct (cancelBooking 2 "plans changed" 0 (store_with [mk_booking 2 Confirmed (3 * HOUR) (5 * HOUR)]))
    as [db' [e|r]] eqn:E.
  - vm_compute in E. discriminate.
  - exists db', r. split; [reflexivity|].
    destruct (proj2 (terminal_status_frees_slot
                       (store_with [mk_booking 2 Confirmed (3 * HOUR) (5 * HOUR)]) 2)
                    "plans changed" 0 db' r E) as [_ F].
    rewrite F. reflexivity.
Defined.

End ServiceFacts.
